(** * Work-Manager: a shallow embedding of [work.py]

    The program keeps three JSON files under [~/.work_manager]: the work
    log, the to-do list and the marker of the active session.  Every
    command of the script is embedded as a computation over an explicit
    world: the three files, the wall clock, the [systemctl] collaborator
    and the trace of what was printed and run.

    Conventions of the embedding.
    - A [datetime] is the number of microseconds since 0001-01-01T00:00:00
      (Python's ordinal 1), a [date] is Python's proleptic ordinal.  Both
      are checked against Python's range, and arithmetic that leaves the
      range raises [OverflowError] as it does in Python.
    - [isoformat] followed by [fromisoformat] is the identity on naive
      datetimes, so files hold the timestamps themselves.
    - A file is missing, holds text that is not valid JSON, or holds a
      document of the shape the script writes.  Files that are not text
      (bytes that are not valid UTF-8, on which [open(...).read] raises
      [UnicodeDecodeError]) are not part of the store.  To-do deadlines
      may be any JSON scalar, since [check_deadlines] guards against
      hand-edited values.
    - [print] is recorded as a structured message, one constructor per
      [print] statement of the source, carrying the values the statement
      interpolates.  A duration is carried as the [timedelta] itself: the
      hours and minutes of the text are computed from it by the source
      in floating point, which is formatting and is not modelled. *)

From Stdlib Require Import ZArith List String Ascii Bool Lia Permutation Sorted.
Import ListNotations.
Open Scope string_scope.
Open Scope list_scope.
Open Scope Z_scope.

(* ------------------------------------------------------------------ *)
(** ** Dates, datetimes and timedeltas *)

Definition US_PER_SECOND : Z := 1000000.
Definition US_PER_MINUTE : Z := 60 * US_PER_SECOND.
Definition US_PER_HOUR : Z := 3600 * US_PER_SECOND.
Definition US_PER_DAY : Z := 86400 * US_PER_SECOND.

(** [date.max.toordinal()], the ordinal of 9999-12-31. *)
Definition MAXORDINAL : Z := 3652059.
(** Largest magnitude of the day count of a [timedelta]. *)
Definition MAX_DELTA_DAYS : Z := 999999999.

Definition datetime := Z.
Definition date := Z.
Definition timedelta := Z.

Definition MAX_US : Z := MAXORDINAL * US_PER_DAY.

Definition valid_datetime (t : datetime) : Prop := 0 <= t < MAX_US.
Definition valid_date (d : date) : Prop := 1 <= d <= MAXORDINAL.

(** The [timedelta] constructor: [None] stands for [OverflowError]. *)
Definition mk_timedelta (us : Z) : option timedelta :=
  let days := us / US_PER_DAY in
  if (- MAX_DELTA_DAYS <=? days) && (days <=? MAX_DELTA_DAYS)
  then Some us else None.

Definition timedelta_days (days : Z) : option timedelta :=
  mk_timedelta (days * US_PER_DAY).

Definition timedelta_weeks (weeks : Z) : option timedelta :=
  mk_timedelta (weeks * 7 * US_PER_DAY).

(** [timedelta(days=months * 30.5)] for an integer [months]: half a day is
    twelve hours, so the product is a whole number of microseconds. *)
Definition timedelta_months (months : Z) : option timedelta :=
  mk_timedelta (months * 61 * (US_PER_DAY / 2)).

(** [datetime + timedelta] and [datetime - timedelta]. *)
Definition datetime_add (t : datetime) (d : timedelta) : option datetime :=
  let r := t + d in
  if (0 <=? r) && (r <? MAX_US) then Some r else None.

Definition datetime_sub (t : datetime) (d : timedelta) : option datetime :=
  datetime_add t (- d).

(** [date + timedelta], the time-of-day part of the delta is dropped. *)
Definition date_add (d : date) (delta : timedelta) : option date :=
  let r := d + delta / US_PER_DAY in
  if (1 <=? r) && (r <=? MAXORDINAL) then Some r else None.

(** [datetime.date().toordinal()] and [datetime.weekday()] (Monday is 0:
    ordinal 1 is a Monday). *)
Definition date_of (t : datetime) : date := t / US_PER_DAY + 1.
Definition weekday (t : datetime) : Z := (date_of t + 6) mod 7.
Definition time_of_day (t : datetime) : Z := t mod US_PER_DAY.

(** *** The Gregorian calendar, as in [datetime.date(y, m, d).toordinal()] *)

Definition is_leap (y : Z) : bool :=
  (y mod 4 =? 0) && (negb (y mod 100 =? 0) || (y mod 400 =? 0)).

Definition days_before_year (y : Z) : Z :=
  let y1 := y - 1 in y1 * 365 + y1 / 4 - y1 / 100 + y1 / 400.

Definition days_in_month (y m : Z) : Z :=
  if m =? 2 then (if is_leap y then 29 else 28)
  else if (m =? 4) || (m =? 6) || (m =? 9) || (m =? 11) then 30
  else 31.

Fixpoint days_before_month_aux (y : Z) (n : nat) : Z :=
  match n with
  | O => 0
  | S k => days_before_month_aux y k + days_in_month y (Z.of_nat (S k))
  end.

Definition days_before_month (y m : Z) : Z :=
  days_before_month_aux y (Z.to_nat (m - 1)).

(** [None] stands for the [ValueError] of the constructor. *)
Definition ymd_to_ordinal (y m d : Z) : option date :=
  if (1 <=? y) && (y <=? 9999) && (1 <=? m) && (m <=? 12)
     && (1 <=? d) && (d <=? days_in_month y m)
  then Some (days_before_year y + days_before_month y m + d)
  else None.

(** *** [datetime.strptime(s, "%Y-%m-%d")]

    The format compiles to the regular expression
    [(\d\d\d\d)-(1[0-2]|0[1-9]|[1-9])-(3[0-1]|[1-2]\d|0[1-9]|[1-9]| [1-9])],
    matched at the start of the string; text left over after the match is
    an error.  The alternatives of the month exclude one another once the
    following dash is required, and the day is the last group, so the
    first alternative that matches locally is the one the matcher takes.
    Strings are read as ASCII text. *)

Definition digit (c : ascii) : option Z :=
  let n := Z.of_nat (nat_of_ascii c) in
  if (48 <=? n) && (n <=? 57) then Some (n - 48) else None.

Definition digit_in (lo hi : Z) (c : ascii) : option Z :=
  match digit c with
  | Some v => if (lo <=? v) && (v <=? hi) then Some v else None
  | None => None
  end.

Definition match_Y (s : string) : option (Z * string) :=
  match s with
  | String a (String b (String c (String d r))) =>
      match digit a, digit b, digit c, digit d with
      | Some va, Some vb, Some vc, Some vd =>
          Some (va * 1000 + vb * 100 + vc * 10 + vd, r)
      | _, _, _, _ => None
      end
  | _ => None
  end.

Definition match_dash (s : string) : option string :=
  match s with
  | String c r => if Ascii.eqb c "-" then Some r else None
  | EmptyString => None
  end.

(** One alternative made of a first character class and, when [second] is
    given, a second one. *)
Definition match_alt (first : ascii -> option Z) (second : option (ascii -> option Z))
    (s : string) : option (Z * string) :=
  match s with
  | String a r =>
      match first a with
      | Some va =>
          match second with
          | None => Some (va, r)
          | Some snd_class =>
              match r with
              | String b r' =>
                  match snd_class b with
                  | Some vb => Some (va * 10 + vb, r')
                  | None => None
                  end
              | EmptyString => None
              end
          end
      | None => None
      end
  | EmptyString => None
  end.

Fixpoint first_match {A : Type} (alts : list (string -> option A)) (s : string)
    : option A :=
  match alts with
  | [] => None
  | alt :: rest =>
      match alt s with
      | Some r => Some r
      | None => first_match rest s
      end
  end.

Definition space_class (c : ascii) : option Z :=
  if Ascii.eqb c " " then Some 0 else None.

Definition match_m : string -> option (Z * string) :=
  first_match
    [ match_alt (digit_in 1 1) (Some (digit_in 0 2));
      match_alt (digit_in 0 0) (Some (digit_in 1 9));
      match_alt (digit_in 1 9) None ].

Definition match_d : string -> option (Z * string) :=
  first_match
    [ match_alt (digit_in 3 3) (Some (digit_in 0 1));
      match_alt (digit_in 1 2) (Some (digit_in 0 9));
      match_alt (digit_in 0 0) (Some (digit_in 1 9));
      match_alt (digit_in 1 9) None;
      match_alt space_class (Some (digit_in 1 9)) ].

(** [None] stands for [ValueError]; the result is the [.date()] of the
    parsed datetime. *)
Definition strptime (s : string) : option date :=
  match match_Y s with
  | Some (y, s1) =>
      match match_dash s1 with
      | Some s2 =>
          match match_m s2 with
          | Some (m, s3) =>
              match match_dash s3 with
              | Some s4 =>
                  match match_d s4 with
                  | Some (d, EmptyString) => ymd_to_ordinal y m d
                  | _ => None
                  end
              | None => None
              end
          | None => None
          end
      | None => None
      end
  | None => None
  end.

(* ------------------------------------------------------------------ *)
(** ** The persisted records *)

(** The active-session marker, [{"start_time": ...}]. *)
Record Session := { start_time : datetime }.

(** A work-log entry, [{"start": ..., "end": ...}]. *)
Record LogEntry := { start : datetime; end_ : datetime }.

(** JSON scalars, for the deadline of a to-do item found on disk. *)
Inductive jvalue :=
| JNull
| JBool (b : bool)
| JInt (n : Z)
| JStr (s : string).

(** A to-do item: [group] and [deadline] are keys that may be absent. *)
Record Todo := {
  task : string;
  group : option string;
  deadline : option jvalue
}.

(** The state of one file on disk: absent ([FileNotFoundError] on
    [open]), text that [json.load] rejects ([JSONDecodeError]), or a
    document. *)
Inductive file (A : Type) :=
| Missing
| InvalidJson (text : string)
| Holds (content : A).
Arguments Missing {A}.
Arguments InvalidJson {A} text.
Arguments Holds {A} content.

Record Store := {
  work_log_json : file (list LogEntry);
  todos_json : file (list Todo);
  active_session_json : file Session
}.

(** A file path: how to find the file in the store and how to replace it. *)
Record path (A : Type) := {
  get : Store -> file A;
  set : file A -> Store -> Store
}.
Arguments get {A} p s.
Arguments set {A} p f s.

Definition WORK_LOG_FILE : path (list LogEntry) :=
  {| get := work_log_json;
     set := fun f s => {| work_log_json := f;
                          todos_json := todos_json s;
                          active_session_json := active_session_json s |} |}.

Definition TODOS_FILE : path (list Todo) :=
  {| get := todos_json;
     set := fun f s => {| work_log_json := work_log_json s;
                          todos_json := f;
                          active_session_json := active_session_json s |} |}.

Definition ACTIVE_SESSION_FILE : path Session :=
  {| get := active_session_json;
     set := fun f s => {| work_log_json := work_log_json s;
                          todos_json := todos_json s;
                          active_session_json := f |} |}.

Definition SYSTEMD_SERVICE_NAME : string := "work-manager.service".
Definition DEFAULT_MONTHS_TO_KEEP : Z := 6.

(* ------------------------------------------------------------------ *)
(** ** The world and the monad of commands *)

(** What a [print] statement of the script shows.  The messages about a
    duration carry the [timedelta] that the statement formats as hours
    and minutes. *)
Inductive message :=
| MsgSystemdWarning (service : string)
| MsgSystemdMayNotWork
| MsgAlreadyActive
| MsgStarted (at_ : datetime)
| MsgAutoLogNotice
| MsgNoActiveSession
| MsgStopped (at_ : datetime)
| MsgSessionDuration (duration : timedelta)
| MsgNotWorking
| MsgCurrentlyWorking (since : datetime)
| MsgElapsed (duration : timedelta)
| MsgLogEmpty
| MsgWeekHeader (start_of_week : datetime)
| MsgNoSessionsThisWeek
| MsgSessionLine (started : datetime) (duration : timedelta)
| MsgRule
| MsgWeeklyTotal (total : timedelta)
| MsgNothingToPrune
| MsgPruned (pruned_count months : Z)
| MsgNoOldEntries
| MsgDeadlineHeader
| MsgDeadlineRule
| MsgOverdueHeader
| MsgUpcomingHeader
| MsgDeadlineLine (group_label task_label : string) (due : jvalue)
| MsgDeadlineFooter
| MsgTodoListEmpty
| MsgGroupHeader (group_label : string)
| MsgGroupUnderline (width : Z)
| MsgTodoLine (id : Z) (task_label : string) (due : option jvalue)
| MsgBlank
| MsgInvalidDeadline (given : string)
| MsgAdded (task_label group_label : string)
| MsgInvalidId (id : Z)
| MsgRemoved (task_label : string).

Inductive event :=
| Print (m : message)
| Run (argv : list string).

Record World := {
  store : Store;
  (** successive readings of the wall clock *)
  clock : nat -> datetime;
  (** how many readings were taken so far *)
  ticks : nat;
  (** whether a [systemctl] invocation succeeds *)
  systemctl : list string -> bool;
  trace : list event
}.

Inductive exn := OverflowError | FileNotFoundError | KeyError | IndexError.

Inductive outcome (A : Type) :=
| Return (a : A)
| SystemExit (code : Z)
| Raised (e : exn).
Arguments Return {A} a.
Arguments SystemExit {A} code.
Arguments Raised {A} e.

Definition M (A : Type) : Type := World -> outcome A * World.

Definition ret {A : Type} (a : A) : M A := fun w => (Return a, w).

Definition bind {A B : Type} (m : M A) (k : A -> M B) : M B :=
  fun w =>
    match m w with
    | (Return a, w') => k a w'
    | (SystemExit c, w') => (SystemExit c, w')
    | (Raised e, w') => (Raised e, w')
    end.

Notation "x <- m ;; k" := (bind m (fun x => k))
  (at level 61, m at next level, right associativity).
Notation "m ;; k" := (bind m (fun _ => k))
  (at level 61, right associativity).

Definition sys_exit {A : Type} (code : Z) : M A := fun w => (SystemExit code, w).
Definition raise {A : Type} (e : exn) : M A := fun w => (Raised e, w).

(** Lifts datetime arithmetic: [None] is [OverflowError]. *)
Definition checked {A : Type} (o : option A) : M A :=
  match o with
  | Some a => ret a
  | None => raise OverflowError
  end.

Definition with_store (f : Store -> Store) (w : World) : World :=
  {| store := f (store w); clock := clock w; ticks := ticks w;
     systemctl := systemctl w; trace := trace w |}.

Definition with_event (e : event) (w : World) : World :=
  {| store := store w; clock := clock w; ticks := ticks w;
     systemctl := systemctl w; trace := trace w ++ [e] |}.

Definition advance (w : World) : World :=
  {| store := store w; clock := clock w; ticks := S (ticks w);
     systemctl := systemctl w; trace := trace w |}.

Definition print (m : message) : M unit :=
  fun w => (Return tt, with_event (Print m) w).

(** [datetime.now()] and [date.today()] each take one reading. *)
Definition datetime_now : M datetime :=
  fun w => (Return (clock w (ticks w)), advance w).

Definition date_today : M date :=
  fun w => (Return (date_of (clock w (ticks w))), advance w).

(** [subprocess.run(argv, check=True)]: [false] when it raises
    [CalledProcessError] or [FileNotFoundError]. *)
Definition subprocess_run (argv : list string) : M bool :=
  fun w => (Return (systemctl w argv), with_event (Run argv) w).

(* ------------------------------------------------------------------ *)
(** ** Helper functions *)

(** [os.makedirs(DATA_DIR, exist_ok=True)]: the directory is not part of
    the store, only the three files in it are. *)
Definition setup_environment : M unit := ret tt.

(** [FileNotFoundError] and [JSONDecodeError] are caught: a missing file
    and a file whose text is not valid JSON read as [default_data]. *)
Definition read_json_file {A : Type} (file_path : path A) (default_data : A) : M A :=
  fun w =>
    match get file_path (store w) with
    | Holds data => (Return data, w)
    | _ => (Return default_data, w)
    end.

Definition write_json_file {A : Type} (file_path : path A) (data : A) : M unit :=
  fun w => (Return tt, with_store (set file_path (Holds data)) w).

(** [os.remove]. *)
Definition os_remove {A : Type} (file_path : path A) : M unit :=
  fun w =>
    match get file_path (store w) with
    | Missing => (Raised FileNotFoundError, w)
    | _ => (Return tt, with_store (set file_path Missing) w)
    end.

(** The default of [read_json_file] is the empty list, which is falsy:
    [None] here. *)
Definition get_active_session : M (option Session) :=
  fun w =>
    match get ACTIVE_SESSION_FILE (store w) with
    | Holds session => (Return (Some session), w)
    | _ => (Return None, w)
    end.

Definition systemd_warning : M unit :=
  print (MsgSystemdWarning SYSTEMD_SERVICE_NAME) ;;
  print MsgSystemdMayNotWork.

Definition manage_systemd_service (action : string) : M unit :=
  if String.eqb action "start" then
    ok <- subprocess_run ["systemctl"; "--user"; "enable"; "--now"; SYSTEMD_SERVICE_NAME] ;;
    if ok then ret tt else systemd_warning
  else if String.eqb action "stop" then
    ok <- subprocess_run ["systemctl"; "--user"; "stop"; SYSTEMD_SERVICE_NAME] ;;
    if ok then
      ok' <- subprocess_run ["systemctl"; "--user"; "disable"; SYSTEMD_SERVICE_NAME] ;;
      if ok' then ret tt else systemd_warning
    else systemd_warning
  else ret tt.

(** Python truthiness of a JSON scalar, and of [dict.get] on a key that
    may be absent. *)
Definition truthy (v : jvalue) : bool :=
  match v with
  | JNull => false
  | JBool b => b
  | JInt n => negb (n =? 0)
  | JStr s => negb (String.eqb s "")
  end.

Definition get_truthy (v : option jvalue) : bool :=
  match v with
  | Some x => truthy x
  | None => false
  end.

Definition is_empty {A : Type} (l : list A) : bool :=
  match l with [] => true | _ => false end.

Definition len {A : Type} (l : list A) : Z := Z.of_nat (List.length l).

Fixpoint for_each {A : Type} (items : list A) (body : A -> M unit) : M unit :=
  match items with
  | [] => ret tt
  | item :: rest => body item ;; for_each rest body
  end.

(** [when c m] is [if c: m]. *)
Definition when (c : bool) (m : M unit) : M unit :=
  if c then m else ret tt.

(* ------------------------------------------------------------------ *)
(** ** To-do list logic: the deadline check *)

(** [datetime.strptime(todo["deadline"], "%Y-%m-%d").date()] inside the
    [try]: [None] when it raises [ValueError] (text that is not a date) or
    [TypeError] (a value that is not a string). *)
Definition parse_deadline (v : jvalue) : option date :=
  match v with
  | JStr s => strptime s
  | _ => None
  end.

(** The [for todo in todos] loop of [check_deadlines]. *)
Fixpoint deadline_loop (today soon_threshold : date) (todos : list Todo)
    (overdue_tasks upcoming_tasks : list Todo) : list Todo * list Todo :=
  match todos with
  | [] => (overdue_tasks, upcoming_tasks)
  | todo :: rest =>
      match deadline todo with
      | Some v =>
          match parse_deadline v with
          | Some deadline_date =>
              if deadline_date <? today then
                deadline_loop today soon_threshold rest
                  (overdue_tasks ++ [todo]) upcoming_tasks
              else if (today <=? deadline_date) && (deadline_date <=? soon_threshold) then
                deadline_loop today soon_threshold rest
                  overdue_tasks (upcoming_tasks ++ [todo])
              else
                deadline_loop today soon_threshold rest overdue_tasks upcoming_tasks
          | None =>
              deadline_loop today soon_threshold rest overdue_tasks upcoming_tasks
          end
      | None =>
          deadline_loop today soon_threshold rest overdue_tasks upcoming_tasks
      end
  end.

(** [task.get('group', 'General')]. *)
Definition group_or_general (todo : Todo) : string :=
  match group todo with
  | Some g => g
  | None => "General"
  end.

Definition print_deadline_line (todo : Todo) : M unit :=
  match deadline todo with
  | Some due => print (MsgDeadlineLine (group_or_general todo) (task todo) due)
  | None => raise KeyError
  end.

(** The notification block printed once some task is overdue or upcoming. *)
Definition print_notifications (overdue_tasks upcoming_tasks : list Todo) : M unit :=
  print MsgDeadlineHeader ;;
  print MsgDeadlineRule ;;
  when (negb (is_empty overdue_tasks))
    (print MsgOverdueHeader ;; for_each overdue_tasks print_deadline_line) ;;
  when (negb (is_empty upcoming_tasks))
    (print MsgUpcomingHeader ;; for_each upcoming_tasks print_deadline_line) ;;
  print MsgDeadlineFooter.

Definition check_deadlines : M unit :=
  todos <- read_json_file TODOS_FILE [] ;;
  if negb (existsb (fun todo => get_truthy (deadline todo)) todos) then ret tt
  else
    today <- date_today ;;
    two_days <- checked (timedelta_days 2) ;;
    soon_threshold <- checked (date_add today two_days) ;;
    let (overdue_tasks, upcoming_tasks) :=
      deadline_loop today soon_threshold todos [] [] in
    if is_empty overdue_tasks && is_empty upcoming_tasks then ret tt
    else print_notifications overdue_tasks upcoming_tasks.

(* ------------------------------------------------------------------ *)
(** ** Core work logic: pruning *)

Definition prune_old_logs (months_to_keep : Z) (silent : bool) : M unit :=
  work_log <- read_json_file WORK_LOG_FILE [] ;;
  if is_empty work_log then
    when (negb silent) (print MsgNothingToPrune)
  else
    now <- datetime_now ;;
    delta <- checked (timedelta_months months_to_keep) ;;
    cutoff_date <- checked (datetime_sub now delta) ;;
    let original_count := len work_log in
    let logs_to_keep := filter (fun entry => cutoff_date <=? end_ entry) work_log in
    let new_count := len logs_to_keep in
    let pruned_count := original_count - new_count in
    if 0 <? pruned_count then
      write_json_file WORK_LOG_FILE logs_to_keep ;;
      when (negb silent) (print (MsgPruned pruned_count months_to_keep))
    else
      when (negb silent) (print MsgNoOldEntries).

(* ------------------------------------------------------------------ *)
(** ** To-do list logic: listing, adding, removing *)

(** [todo['id'] = i + 1] over [enumerate(todos)]: the identifier lives in
    the objects in memory only. *)
Fixpoint enumerate_from (i : Z) (todos : list Todo) : list (Z * Todo) :=
  match todos with
  | [] => []
  | todo :: rest => (i + 1, todo) :: enumerate_from (i + 1) rest
  end.

(** [grouped_todos[group].append(todo)], creating the group when new; the
    dictionary keeps insertion order. *)
Fixpoint group_append (g : string) (item : Z * Todo)
    (grouped_todos : list (string * list (Z * Todo))) : list (string * list (Z * Todo)) :=
  match grouped_todos with
  | [] => [(g, [item])]
  | (g', items) :: rest =>
      if String.eqb g g' then (g', items ++ [item]) :: rest
      else (g', items) :: group_append g item rest
  end.

Definition group_todos (items : list (Z * Todo)) : list (string * list (Z * Todo)) :=
  fold_left (fun grouped item => group_append (group_or_general (snd item)) item grouped)
            items [].

(** [sorted(grouped_todos.items())]: the keys are distinct, so the order
    is the order of the group names. *)
Fixpoint insert_group (entry : string * list (Z * Todo))
    (sorted : list (string * list (Z * Todo))) : list (string * list (Z * Todo)) :=
  match sorted with
  | [] => [entry]
  | e :: rest =>
      if String.ltb (fst entry) (fst e) then entry :: e :: rest
      else e :: insert_group entry rest
  end.

Definition sorted_groups (grouped_todos : list (string * list (Z * Todo)))
    : list (string * list (Z * Todo)) :=
  fold_left (fun acc entry => insert_group entry acc) grouped_todos [].

Definition print_todo_line (item : Z * Todo) : M unit :=
  let (id, todo) := item in
  print (MsgTodoLine id (task todo)
           (if get_truthy (deadline todo) then deadline todo else None)).

Definition print_group (entry : string * list (Z * Todo)) : M unit :=
  let (g, items) := entry in
  print (MsgGroupHeader g) ;;
  print (MsgGroupUnderline (Z.of_nat (String.length g) + 2)) ;;
  for_each items print_todo_line.

Definition list_todos : M unit :=
  todos <- read_json_file TODOS_FILE [] ;;
  if is_empty todos then print MsgTodoListEmpty
  else
    let items := enumerate_from 0 todos in
    let grouped_todos := group_todos items in
    for_each (sorted_groups grouped_todos) print_group ;;
    print MsgBlank.

(** Python truthiness of an optional command-line string. *)
Definition given (deadline : option string) : option string :=
  match deadline with
  | Some d => if String.eqb d "" then None else Some d
  | None => None
  end.

Definition add_todo (task group : string) (deadline : option string) : M unit :=
  todos <- read_json_file TODOS_FILE [] ;;
  new_todo <-
    match given deadline with
    | Some d =>
        match strptime d with
        | Some _ =>
            ret {| task := task; group := Some group; deadline := Some (JStr d) |}
        | None =>
            print (MsgInvalidDeadline d) ;; sys_exit 1
        end
    | None => ret {| task := task; group := Some group; deadline := None |}
    end ;;
  write_json_file TODOS_FILE (todos ++ [new_todo]) ;;
  print (MsgAdded task group) ;;
  list_todos.

(** [list.pop(i)]: a negative index counts from the end, an index out of
    range is an [IndexError] ([None]). *)
Definition pop {A : Type} (l : list A) (i : Z) : option (A * list A) :=
  let j := if i <? 0 then i + len l else i in
  if (0 <=? j) && (j <? len l) then
    match nth_error l (Z.to_nat j) with
    | Some x => Some (x, firstn (Z.to_nat j) l ++ skipn (S (Z.to_nat j)) l)
    | None => None
    end
  else None.

Definition remove_todo (todo_id : Z) : M unit :=
  todos <- read_json_file TODOS_FILE [] ;;
  if negb ((0 <? todo_id) && (todo_id <=? len todos)) then
    print (MsgInvalidId todo_id) ;; sys_exit 1
  else
    match pop todos (todo_id - 1) with
    | Some (removed_todo, todos') =>
        write_json_file TODOS_FILE todos' ;;
        print (MsgRemoved (task removed_todo)) ;;
        list_todos
    | None => raise IndexError
    end.

(* ------------------------------------------------------------------ *)
(** ** Core work logic: sessions *)

Definition start_work : M unit :=
  session <- get_active_session ;;
  match session with
  | Some _ => print MsgAlreadyActive ;; sys_exit 1
  | None =>
      check_deadlines ;;
      now <- datetime_now ;;
      write_json_file ACTIVE_SESSION_FILE {| start_time := now |} ;;
      manage_systemd_service "start" ;;
      shown <- datetime_now ;;
      print (MsgStarted shown) ;;
      print MsgAutoLogNotice
  end.

Definition stop_work : M unit :=
  session <- get_active_session ;;
  match session with
  | None =>
      print MsgNoActiveSession ;;
      manage_systemd_service "stop" ;;
      sys_exit 0
  | Some session =>
      let start_time := start_time session in
      end_time <- datetime_now ;;
      work_log <- read_json_file WORK_LOG_FILE [] ;;
      write_json_file WORK_LOG_FILE
        (work_log ++ [{| start := start_time; end_ := end_time |}]) ;;
      os_remove ACTIVE_SESSION_FILE ;;
      manage_systemd_service "stop" ;;
      let duration := end_time - start_time in
      print (MsgStopped end_time) ;;
      print (MsgSessionDuration duration) ;;
      prune_old_logs DEFAULT_MONTHS_TO_KEEP true
  end.

Definition show_status : M unit :=
  session <- get_active_session ;;
  match session with
  | None => print MsgNotWorking
  | Some session =>
      let start_time := start_time session in
      now <- datetime_now ;;
      let duration := now - start_time in
      print (MsgCurrentlyWorking start_time) ;;
      print (MsgElapsed duration)
  end.

(* ------------------------------------------------------------------ *)
(** ** Core work logic: the weekly log *)

Definition option_bind {A B : Type} (o : option A) (k : A -> option B) : option B :=
  match o with
  | Some a => k a
  | None => None
  end.

(** The window of [show_log], from the reading [today] of the clock:
    [(start_of_week, end_of_week)], or [None] for [OverflowError]. *)
Definition week_window (today : datetime) (week_offset : Z) : option (datetime * datetime) :=
  option_bind (timedelta_days (weekday today)) (fun back =>
  option_bind (datetime_sub today back) (fun start_of_current_week =>
  option_bind (timedelta_weeks week_offset) (fun shift =>
  option_bind (datetime_add start_of_current_week shift) (fun start_of_week =>
  option_bind (timedelta_days 7) (fun seven_days =>
  option_bind (datetime_add start_of_week seven_days) (fun end_of_week =>
  Some (start_of_week, end_of_week))))))).

(** The [for entry in work_log] loop of [show_log]. *)
Fixpoint week_loop (start_of_week end_of_week : datetime) (work_log : list LogEntry)
    (weekly_total : timedelta) (week_sessions : list (datetime * timedelta))
    : option (timedelta * list (datetime * timedelta)) :=
  match work_log with
  | [] => Some (weekly_total, week_sessions)
  | entry :: rest =>
      let start_time := start entry in
      if (start_of_week <=? start_time) && (start_time <? end_of_week) then
        let end_time := end_ entry in
        let duration := end_time - start_time in
        option_bind (mk_timedelta (weekly_total + duration)) (fun total =>
        week_loop start_of_week end_of_week rest total
                  (week_sessions ++ [(start_time, duration)]))
      else week_loop start_of_week end_of_week rest weekly_total week_sessions
  end.

(** [week_sessions.sort(key=lambda x: x[0])], a stable sort. *)
Fixpoint insert_session (s : datetime * timedelta) (sorted : list (datetime * timedelta))
    : list (datetime * timedelta) :=
  match sorted with
  | [] => [s]
  | x :: rest =>
      if fst s <? fst x then s :: x :: rest
      else x :: insert_session s rest
  end.

Definition sort_sessions (week_sessions : list (datetime * timedelta))
    : list (datetime * timedelta) :=
  fold_left (fun acc s => insert_session s acc) week_sessions [].

Definition print_session_line (s : datetime * timedelta) : M unit :=
  let (started, duration) := s in
  print (MsgSessionLine started duration).

Definition show_log (week_offset : Z) : M unit :=
  work_log <- read_json_file WORK_LOG_FILE [] ;;
  if is_empty work_log then print MsgLogEmpty
  else
    today <- datetime_now ;;
    window <- checked (week_window today week_offset) ;;
    let (start_of_week, end_of_week) := window in
    print (MsgWeekHeader start_of_week) ;;
    result <- checked (week_loop start_of_week end_of_week work_log 0 []) ;;
    let (weekly_total, week_sessions) := result in
    if is_empty week_sessions then print MsgNoSessionsThisWeek
    else
      for_each (sort_sessions week_sessions) print_session_line ;;
      print MsgRule ;;
      print (MsgWeeklyTotal weekly_total) ;;
      print MsgRule.

(* ------------------------------------------------------------------ *)
(** ** The command dispatcher *)

Inductive command :=
| CmdStart
| CmdStop
| CmdStatus
| CmdLogShow (week : string)
| CmdLogPrune (months : Z)
| CmdTodoList
| CmdTodoCheck
| CmdTodoAdd (task group : string) (deadline : option string)
| CmdTodoRm (id : Z).

Definition main (args : command) : M unit :=
  setup_environment ;;
  match args with
  | CmdStart => start_work
  | CmdStop => stop_work
  | CmdStatus => show_status
  | CmdLogShow week =>
      let offset := if String.eqb week "current" then 0 else -1 in
      show_log offset
  | CmdLogPrune months => prune_old_logs months false
  | CmdTodoList => list_todos
  | CmdTodoCheck => check_deadlines
  | CmdTodoAdd task group deadline => add_todo task group deadline
  | CmdTodoRm id => remove_todo id
  end.

(* ------------------------------------------------------------------ *)
(** ** Vocabulary of the specification *)

(** What a reader of the file sees: a missing file and a file whose text
    is not valid JSON read as the empty list. *)
Definition contents {A : Type} (f : file (list A)) : list A :=
  match f with
  | Holds l => l
  | _ => []
  end.

Definition work_log (s : Store) : list LogEntry := contents (work_log_json s).
Definition todo_list (s : Store) : list Todo := contents (todos_json s).

(** The session manager is Active when a marker is on disk, Idle otherwise. *)
Definition active (s : Store) : bool :=
  match active_session_json s with
  | Holds _ => true
  | _ => false
  end.

Definition result {A : Type} (m : M A) (w : World) : outcome A := fst (m w).
Definition after {A : Type} (m : M A) (w : World) : World := snd (m w).

(** The next reading the clock will give. *)
Definition next_reading (w : World) : datetime := clock w (ticks w).

(** Thirty and a half days, the month of the retention policy. *)
Definition MONTH_US : Z := 61 * (US_PER_DAY / 2).

(** The cutoff of [prune_old_logs] from the reading [now] of the clock:
    [now - timedelta(days=months_to_keep * 30.5)], [None] when it
    overflows. *)
Definition prune_cutoff (now : datetime) (months_to_keep : Z) : option datetime :=
  option_bind (timedelta_months months_to_keep) (datetime_sub now).

(** The retention test of [prune_old_logs]. *)
Definition kept (cutoff_date : datetime) (entry : LogEntry) : bool :=
  cutoff_date <=? end_ entry.

(** The classification of the deadline checker, in the words of the
    specification. *)
Definition is_overdue (today : date) (todo : Todo) : bool :=
  match option_bind (deadline todo) parse_deadline with
  | Some deadline_date => deadline_date <? today
  | None => false
  end.

Definition is_upcoming (today : date) (todo : Todo) : bool :=
  match option_bind (deadline todo) parse_deadline with
  | Some deadline_date => (today <=? deadline_date) && (deadline_date <=? today + 2)
  | None => false
  end.

(** The notification block as a list of events. *)
Definition deadline_line (todo : Todo) : event :=
  Print (MsgDeadlineLine (group_or_general todo) (task todo)
           (match deadline todo with Some due => due | None => JNull end)).

Definition notification_events (overdue_tasks upcoming_tasks : list Todo) : list event :=
  if is_empty overdue_tasks && is_empty upcoming_tasks then []
  else
    [Print MsgDeadlineHeader; Print MsgDeadlineRule]
    ++ (if is_empty overdue_tasks then []
        else Print MsgOverdueHeader :: map deadline_line overdue_tasks)
    ++ (if is_empty upcoming_tasks then []
        else Print MsgUpcomingHeader :: map deadline_line upcoming_tasks)
    ++ [Print MsgDeadlineFooter].

(** A computation that leaves the three files as they are. *)
Definition read_only {A : Type} (m : M A) : Prop :=
  forall w, store (after m w) = store w.

(** A computation that reads the clock at most forward and leaves the
    clock itself and the [systemctl] collaborator alone. *)
Definition steady {A : Type} (m : M A) : Prop :=
  forall w, clock (after m w) = clock w /\ (ticks w <= ticks (after m w))%nat.

(** A computation that always returns normally. *)
Definition never_fails {A : Type} (m : M A) : Prop :=
  forall w, exists a, result m w = Return a.

(** The world after [n] more readings of the clock and the events [evs]. *)
Definition moved (w : World) (n : nat) (evs : list event) : World :=
  {| store := store w; clock := clock w; ticks := (ticks w + n)%nat;
     systemctl := systemctl w; trace := trace w ++ evs |}.

(** A command that returns [tt] after some readings and some events. *)
Definition runs_to (m : M unit) (w : World) (n : nat) (evs : list event) : Prop :=
  m w = (Return tt, moved w n evs).

(** The deadline check reads the date only when some item carries a
    truthy deadline. *)
Definition deadline_readings (s : Store) : nat :=
  if existsb (fun todo => get_truthy (deadline todo)) (todo_list s) then 1%nat else 0%nat.

(* ------------------------------------------------------------------ *)
(** ** Sample data *)

Definition at_ymd_hms (ordinal h m s : Z) : datetime :=
  (ordinal - 1) * US_PER_DAY + h * US_PER_HOUR + m * US_PER_MINUTE + s * US_PER_SECOND.

(** 2024-01-08 is a Monday, 2024-01-10 a Wednesday. *)
Definition monday_2024_01_08 : date := 738893.
Definition wednesday_2024_01_10 : date := 738895.

Definition empty_store : Store :=
  {| work_log_json := Missing; todos_json := Missing; active_session_json := Missing |}.

(** A log with an entry long past, one ending exactly 183 days before
    Wednesday 2024-01-10 15:00, and one of that week's Monday. *)
Definition old_entry : LogEntry :=
  {| start := at_ymd_hms 738000 9 0 0; end_ := at_ymd_hms 738000 17 0 0 |}.
Definition boundary_entry : LogEntry :=
  {| start := at_ymd_hms (wednesday_2024_01_10 - 183) 9 0 0;
     end_ := at_ymd_hms (wednesday_2024_01_10 - 183) 15 0 0 |}.
Definition recent_entry : LogEntry :=
  {| start := at_ymd_hms monday_2024_01_08 9 0 0;
     end_ := at_ymd_hms monday_2024_01_08 10 0 0 |}.

Definition sample_store : Store :=
  {| work_log_json := Holds [old_entry; boundary_entry; recent_entry];
     todos_json :=
       Holds [ {| task := "late"; group := None; deadline := Some (JStr "2024-01-09") |};
               {| task := "today"; group := Some "Home"; deadline := Some (JStr "2024-01-10") |};
               {| task := "soon"; group := Some "Home"; deadline := Some (JStr "2024-01-12") |};
               {| task := "later"; group := None; deadline := Some (JStr "2024-01-13") |};
               {| task := "vague"; group := None; deadline := Some (JStr "next week") |};
               {| task := "null"; group := None; deadline := Some JNull |};
               {| task := "none"; group := None; deadline := None |} ];
     active_session_json := Missing |}.

Definition world_at (s : Store) (now : datetime) : World :=
  {| store := s; clock := fun _ => now; ticks := 0;
     systemctl := fun _ => true; trace := [] |}.

(* ------------------------------------------------------------------ *)
(** ** Invariants and views used by the further properties *)

(** The invariant of the to-do list: a deadline that is present parses
    as a date. *)
Definition deadline_ok (todo : Todo) : Prop :=
  forall v, deadline todo = Some v -> parse_deadline v <> None.

Definition deadlines_valid (todos : list Todo) : Prop := Forall deadline_ok todos.

(** The item [add_todo] builds from its arguments. *)
Definition new_item (task group : string) (deadline : option string) : Todo :=
  {| task := task; group := Some group; deadline := option_map JStr (given deadline) |}.

(** The invariant of the work log: a session ends no earlier than it
    starts. *)
Definition log_ordered (log : list LogEntry) : Prop :=
  Forall (fun entry => start entry <= end_ entry) log.

(** A computation that leaves one view [f] of the store as it is. *)
Definition keeps {A B : Type} (f : Store -> B) (m : M A) : Prop :=
  forall w, f (store (after m w)) = f (store w).

(** The lines [list_todos] prints for one item and for one group. *)
Definition todo_line (item : Z * Todo) : event :=
  Print (MsgTodoLine (fst item) (task (snd item))
           (if get_truthy (deadline (snd item)) then deadline (snd item) else None)).

Definition render_group (entry : string * list (Z * Todo)) : list event :=
  Print (MsgGroupHeader (fst entry))
  :: Print (MsgGroupUnderline (Z.of_nat (String.length (fst entry)) + 2))
  :: map todo_line (snd entry).

(** Whether a numbered item belongs to the group [g]. *)
Definition in_group (g : string) (item : Z * Todo) : bool :=
  String.eqb (group_or_general (snd item)) g.

(** The items a grouping files under [g]: those of the first entry with
    that name. *)
Fixpoint group_items (g : string) (grouped_todos : list (string * list (Z * Todo)))
    : list (Z * Todo) :=
  match grouped_todos with
  | [] => []
  | (g', items) :: rest => if String.eqb g g' then items else group_items g rest
  end.

(** The test of the loop of [show_log], and what it records for an entry
    that passes. *)
Definition in_window (start_of_week end_of_week : datetime) (entry : LogEntry) : bool :=
  (start_of_week <=? start entry) && (start entry <? end_of_week).

Definition session_of (entry : LogEntry) : datetime * timedelta :=
  (start entry, end_ entry - start entry).

Definition total_duration (sessions : list (datetime * timedelta)) : timedelta :=
  fold_right (fun s acc => snd s + acc) 0 sessions.

(** What [show_log] prints below the header of the week. *)
Definition session_line (s : datetime * timedelta) : event :=
  Print (MsgSessionLine (fst s) (snd s)).

Definition week_report (sessions : list (datetime * timedelta)) : list event :=
  if is_empty sessions then [Print MsgNoSessionsThisWeek]
  else map session_line (sort_sessions sessions)
       ++ [Print MsgRule;
           Print (MsgWeeklyTotal (total_duration sessions));
           Print MsgRule].

(** The largest duration a [timedelta] holds, exclusive. *)
Definition TIMEDELTA_LIMIT : Z := (MAX_DELTA_DAYS + 1) * US_PER_DAY.

(** A computation that returns or raises [OverflowError], and does
    nothing else: it never exits and raises no other exception. *)
Definition tame {A : Type} (m : M A) : Prop :=
  forall w,
    match result m w with
    | Return _ => True
    | SystemExit _ => False
    | Raised e => e = OverflowError
    end.

(* ------------------------------------------------------------------ *)
(** * Properties *)

(** ** Datetime arithmetic *)

Lemma US_PER_DAY_pos : 0 < US_PER_DAY.
Proof. reflexivity. Qed.

Lemma mk_timedelta_ok (us : Z) :
  - MAX_US <= us <= MAX_US -> mk_timedelta us = Some us.
Proof.
  intros H. unfold mk_timedelta.
  assert (Hlo : - MAX_DELTA_DAYS <= us / US_PER_DAY).
  { apply Z.div_le_lower_bound; [reflexivity|].
    unfold MAX_US, MAX_DELTA_DAYS, MAXORDINAL, US_PER_DAY, US_PER_SECOND in *. lia. }
  assert (Hhi : us / US_PER_DAY <= MAX_DELTA_DAYS).
  { apply Z.lt_succ_r, Z.div_lt_upper_bound; [reflexivity|].
    unfold MAX_US, MAX_DELTA_DAYS, MAXORDINAL, US_PER_DAY, US_PER_SECOND in *. lia. }
  apply Z.leb_le in Hlo. apply Z.leb_le in Hhi.
  cbv zeta. rewrite Hlo, Hhi. reflexivity.
Qed.

Lemma timedelta_days_ok (days : Z) :
  - MAXORDINAL <= days <= MAXORDINAL ->
  timedelta_days days = Some (days * US_PER_DAY).
Proof.
  intros H. apply mk_timedelta_ok.
  unfold MAX_US, MAXORDINAL, US_PER_DAY, US_PER_SECOND in *. lia.
Qed.

Lemma timedelta_weeks_ok (weeks : Z) :
  - MAXORDINAL <= 7 * weeks <= MAXORDINAL ->
  timedelta_weeks weeks = Some (weeks * 7 * US_PER_DAY).
Proof.
  intros H. apply mk_timedelta_ok.
  unfold MAX_US, MAXORDINAL, US_PER_DAY, US_PER_SECOND in *. lia.
Qed.

Lemma datetime_add_ok (t : datetime) (d : timedelta) :
  valid_datetime (t + d) -> datetime_add t d = Some (t + d).
Proof.
  unfold valid_datetime, datetime_add. intros [Hlo Hhi].
  apply Z.leb_le in Hlo. apply Z.ltb_lt in Hhi.
  cbv zeta. rewrite Hlo, Hhi. reflexivity.
Qed.

Lemma datetime_add_some (t : datetime) (d : timedelta) (r : datetime) :
  datetime_add t d = Some r -> r = t + d /\ valid_datetime r.
Proof.
  unfold datetime_add, valid_datetime. cbv zeta.
  destruct (0 <=? t + d) eqn:Hlo; [|discriminate].
  destruct (t + d <? MAX_US) eqn:Hhi; [|discriminate].
  intros [= <-]. apply Z.leb_le in Hlo. apply Z.ltb_lt in Hhi. lia.
Qed.

Lemma datetime_sub_ok (t : datetime) (d : timedelta) :
  valid_datetime (t - d) -> datetime_sub t d = Some (t - d).
Proof.
  intros H. unfold datetime_sub. replace (t - d) with (t + - d) in * by lia.
  now apply datetime_add_ok.
Qed.

Lemma weekday_range (t : datetime) : 0 <= weekday t <= 6.
Proof. unfold weekday. pose proof (Z.mod_pos_bound (date_of t + 6) 7). lia. Qed.

(** Going back [weekday t] days never leaves the calendar: day one is a
    Monday. *)
Lemma weekday_le_days (t : datetime) :
  0 <= t -> weekday t * US_PER_DAY <= t.
Proof.
  intros Ht. unfold weekday, date_of.
  pose proof US_PER_DAY_pos as HD.
  assert (Hq : 0 <= t / US_PER_DAY) by (apply Z.div_pos; lia).
  replace (t / US_PER_DAY + 1 + 6) with (t / US_PER_DAY + 1 * 7) by lia.
  rewrite Z.mod_add by lia.
  pose proof (Z.mod_le (t / US_PER_DAY) 7 Hq ltac:(lia)).
  pose proof (Z.mul_div_le t US_PER_DAY HD). nia.
Qed.

(** What [week_window] computes when nothing overflows. *)
Lemma week_window_ok (today : datetime) (week_offset : Z) :
  let start_of_week := today - weekday today * US_PER_DAY + week_offset * 7 * US_PER_DAY in
  valid_datetime today ->
  valid_datetime start_of_week ->
  valid_datetime (start_of_week + 7 * US_PER_DAY) ->
  week_window today week_offset = Some (start_of_week, start_of_week + 7 * US_PER_DAY).
Proof.
  intros start_of_week Ht Hs He. unfold week_window.
  pose proof (weekday_range today) as Hw.
  pose proof (weekday_le_days today ltac:(apply Ht)) as Hback.
  pose proof US_PER_DAY_pos as HD.
  rewrite timedelta_days_ok by (unfold MAXORDINAL; lia). cbn [option_bind].
  rewrite datetime_sub_ok by (unfold valid_datetime in *; lia). cbn [option_bind].
  rewrite timedelta_weeks_ok; cycle 1.
  { unfold valid_datetime, MAX_US, MAXORDINAL, start_of_week in *.
    unfold US_PER_DAY, US_PER_SECOND in *. lia. }
  cbn [option_bind].
  rewrite datetime_add_ok by exact Hs. cbn [option_bind].
  rewrite timedelta_days_ok by (unfold MAXORDINAL; lia). cbn [option_bind].
  rewrite datetime_add_ok by exact He. reflexivity.
Qed.

Lemma mk_timedelta_some (us : Z) (d : timedelta) :
  mk_timedelta us = Some d -> d = us.
Proof.
  unfold mk_timedelta. cbv zeta.
  destruct (_ && _); [intros [= <-]; reflexivity | discriminate].
Qed.

(** Whenever [week_window] returns, this is what it returns. *)
Lemma week_window_some (today : datetime) (week_offset : Z) (s e : datetime) :
  week_window today week_offset = Some (s, e) ->
  s = today - weekday today * US_PER_DAY + week_offset * 7 * US_PER_DAY /\
  e = s + 7 * US_PER_DAY /\ valid_datetime s /\ valid_datetime e.
Proof.
  unfold week_window, timedelta_days, timedelta_weeks, datetime_sub.
  destruct (mk_timedelta (weekday today * US_PER_DAY)) as [back|] eqn:E1; [|discriminate].
  cbn [option_bind].
  destruct (datetime_add today (- back)) as [cur|] eqn:E2; [|discriminate].
  cbn [option_bind].
  destruct (mk_timedelta (week_offset * 7 * US_PER_DAY)) as [shift|] eqn:E3; [|discriminate].
  cbn [option_bind].
  destruct (datetime_add cur shift) as [s'|] eqn:E4; [|discriminate].
  cbn [option_bind].
  destruct (mk_timedelta (7 * US_PER_DAY)) as [seven|] eqn:E5; [|discriminate].
  cbn [option_bind].
  destruct (datetime_add s' seven) as [e'|] eqn:E6; [|discriminate].
  cbn [option_bind]. intros [= <- <-].
  apply mk_timedelta_some in E1, E3, E5.
  apply datetime_add_some in E2, E4, E6.
  destruct E2 as [-> _], E4 as [-> Hs], E6 as [-> He]. subst.
  repeat split; try apply Hs; try apply He; lia.
Qed.

(** The window of the code starts at the time of day of the clock
    reading, whatever it is. *)
Lemma week_window_keeps_time_of_day (today : datetime) (week_offset : Z) (s e : datetime) :
  week_window today week_offset = Some (s, e) ->
  time_of_day s = time_of_day today.
Proof.
  intros H. apply week_window_some in H. destruct H as (-> & _).
  unfold time_of_day.
  replace (today - weekday today * US_PER_DAY + week_offset * 7 * US_PER_DAY)
    with (today + (week_offset * 7 - weekday today) * US_PER_DAY) by lia.
  apply Z.mod_add. unfold US_PER_DAY, US_PER_SECOND. lia.
Qed.

(** ** The week window *)

(** C3, evaluated on the code: on Wednesday 2024-01-10 at 15:00 the window
    of the current week starts on Monday 2024-01-08 at 15:00, not at
    midnight, and ends seven days later; a session of that Monday from
    09:00 to 10:00 is therefore left out of the current week's log. *)
Theorem show_log_window_starts_at_clock_time :
  let now := at_ymd_hms wednesday_2024_01_10 15 0 0 in
  let session := {| start := at_ymd_hms monday_2024_01_08 9 0 0;
                    end_ := at_ymd_hms monday_2024_01_08 10 0 0 |} in
  let w := world_at {| work_log_json := Holds [session];
                       todos_json := Missing;
                       active_session_json := Missing |} now in
  week_window now 0
    = Some (at_ymd_hms monday_2024_01_08 15 0 0,
            at_ymd_hms (monday_2024_01_08 + 7) 15 0 0)
  /\ time_of_day (at_ymd_hms monday_2024_01_08 15 0 0) = 15 * US_PER_HOUR
  /\ weekday (at_ymd_hms monday_2024_01_08 9 0 0) = 0
  /\ result (show_log 0) w = Return tt
  /\ trace (after (show_log 0) w)
     = [Print (MsgWeekHeader (at_ymd_hms monday_2024_01_08 15 0 0));
        Print MsgNoSessionsThisWeek].
Proof. vm_compute. repeat split; reflexivity. Qed.

(** C4: whenever the window of the current week and that of the previous
    week lie on the calendar, the window computed with offset 0 contains
    the clock reading it was computed from, and the window computed with
    offset -1 from the same reading ends where the window of offset 0
    starts. *)
Theorem week_window_contains_now_and_adjoins (now : datetime) :
  valid_datetime now ->
  7 * US_PER_DAY <= now - weekday now * US_PER_DAY ->
  now - weekday now * US_PER_DAY + 7 * US_PER_DAY < MAX_US ->
  exists start0 end0 start1 end1,
    week_window now 0 = Some (start0, end0) /\
    week_window now (-1) = Some (start1, end1) /\
    start0 <= now < end0 /\
    end1 = start0.
Proof.
  intros Hnow Hprev Hnext.
  pose proof (weekday_range now) as Hw.
  pose proof US_PER_DAY_pos as HD.
  exists (now - weekday now * US_PER_DAY + 0 * 7 * US_PER_DAY).
  exists (now - weekday now * US_PER_DAY + 0 * 7 * US_PER_DAY + 7 * US_PER_DAY).
  exists (now - weekday now * US_PER_DAY + (-1) * 7 * US_PER_DAY).
  exists (now - weekday now * US_PER_DAY + (-1) * 7 * US_PER_DAY + 7 * US_PER_DAY).
  unfold valid_datetime in *.
  split; [|split; [|split]].
  - apply week_window_ok; unfold valid_datetime; lia.
  - apply week_window_ok; unfold valid_datetime; lia.
  - nia.
  - lia.
Qed.

Lemma week_window_contains_now_and_adjoins_witness :
  exists start0 end0 start1 end1,
    week_window (at_ymd_hms wednesday_2024_01_10 15 0 0) 0 = Some (start0, end0) /\
    week_window (at_ymd_hms wednesday_2024_01_10 15 0 0) (-1) = Some (start1, end1) /\
    start0 <= at_ymd_hms wednesday_2024_01_10 15 0 0 < end0 /\
    end1 = start0.
Proof.
  apply (week_window_contains_now_and_adjoins (at_ymd_hms wednesday_2024_01_10 15 0 0)).
  - vm_compute. split; [discriminate | reflexivity].
  - vm_compute. discriminate.
  - vm_compute. reflexivity.
Defined.

(* ------------------------------------------------------------------ *)
(** ** Frame rules of the monad *)

Create HintDb frame.

Lemma bind_run {A B : Type} (m : M A) (k : A -> M B) (w : World) :
  bind m k w =
  match m w with
  | (Return a, w') => k a w'
  | (SystemExit c, w') => (SystemExit c, w')
  | (Raised e, w') => (Raised e, w')
  end.
Proof. reflexivity. Qed.

Lemma read_only_bind {A B : Type} (m : M A) (k : A -> M B) :
  read_only m -> (forall a, read_only (k a)) -> read_only (bind m k).
Proof.
  intros Hm Hk w. unfold after. rewrite bind_run.
  specialize (Hm w). unfold after in Hm.
  destruct (m w) as [[a|c|e] w']; cbn in *; try exact Hm.
  rewrite <- Hm. apply Hk.
Qed.

Lemma read_only_ret {A : Type} (a : A) : read_only (ret a).
Proof. intros w. reflexivity. Qed.

Lemma read_only_sys_exit {A : Type} (c : Z) : read_only (@sys_exit A c).
Proof. intros w. reflexivity. Qed.

Lemma read_only_raise {A : Type} (e : exn) : read_only (@raise A e).
Proof. intros w. reflexivity. Qed.

Lemma read_only_checked {A : Type} (o : option A) : read_only (checked o).
Proof. destruct o; intros w; reflexivity. Qed.

Lemma read_only_print (m : message) : read_only (print m).
Proof. intros w. reflexivity. Qed.

Lemma read_only_datetime_now : read_only datetime_now.
Proof. intros w. reflexivity. Qed.

Lemma read_only_date_today : read_only date_today.
Proof. intros w. reflexivity. Qed.

Lemma read_only_subprocess_run (argv : list string) : read_only (subprocess_run argv).
Proof. intros w. reflexivity. Qed.

Lemma read_only_read_json_file {A : Type} (p : path A) (d : A) :
  read_only (read_json_file p d).
Proof.
  intros w. unfold after, read_json_file.
  destruct (get p (store w)); reflexivity.
Qed.

Lemma read_only_get_active_session : read_only get_active_session.
Proof.
  intros w. unfold after, get_active_session.
  destruct (get ACTIVE_SESSION_FILE (store w)); reflexivity.
Qed.

Lemma read_only_when (c : bool) (m : M unit) : read_only m -> read_only (when c m).
Proof. intros H. destruct c; [exact H | apply read_only_ret]. Qed.

Lemma read_only_for_each {A : Type} (items : list A) (body : A -> M unit) :
  (forall a, read_only (body a)) -> read_only (for_each items body).
Proof.
  intros Hbody. induction items as [|item rest IH]; cbn [for_each].
  - apply read_only_ret.
  - apply read_only_bind; [apply Hbody | intros _; exact IH].
Qed.

#[global] Hint Resolve read_only_ret read_only_sys_exit read_only_raise
  read_only_checked read_only_print read_only_datetime_now read_only_date_today
  read_only_subprocess_run read_only_read_json_file read_only_get_active_session
  read_only_when read_only_for_each : frame.

(** Splits a command into its steps, one frame rule each. *)
Ltac frame_steps :=
  repeat first
    [ solve [auto with frame]
    | apply read_only_bind; [| intros ?]
    | apply read_only_when
    | apply read_only_for_each; intros ?
    | match goal with
      | |- read_only (if ?c then _ else _) => destruct c
      | |- read_only (match ?x with _ => _ end) => destruct x
      | |- read_only (let (_, _) := ?x in _) => destruct x
      end ].

Lemma read_only_systemd_warning : read_only systemd_warning.
Proof. unfold systemd_warning. frame_steps. Qed.

Lemma read_only_manage_systemd_service (action : string) :
  read_only (manage_systemd_service action).
Proof.
  pose proof read_only_systemd_warning.
  unfold manage_systemd_service. frame_steps.
Qed.

Lemma read_only_print_deadline_line (todo : Todo) : read_only (print_deadline_line todo).
Proof. unfold print_deadline_line. frame_steps. Qed.

Lemma read_only_print_notifications (overdue_tasks upcoming_tasks : list Todo) :
  read_only (print_notifications overdue_tasks upcoming_tasks).
Proof.
  pose proof read_only_print_deadline_line.
  unfold print_notifications. frame_steps.
Qed.

Lemma read_only_check_deadlines : read_only check_deadlines.
Proof.
  pose proof read_only_print_notifications.
  unfold check_deadlines. frame_steps.
Qed.

Lemma read_only_print_todo_line (item : Z * Todo) : read_only (print_todo_line item).
Proof. unfold print_todo_line. frame_steps. Qed.

Lemma read_only_print_group (entry : string * list (Z * Todo)) :
  read_only (print_group entry).
Proof.
  pose proof read_only_print_todo_line.
  unfold print_group. frame_steps.
Qed.

Lemma read_only_list_todos : read_only list_todos.
Proof.
  pose proof read_only_print_group.
  unfold list_todos. frame_steps.
Qed.

Lemma read_only_show_status : read_only show_status.
Proof. unfold show_status. frame_steps. Qed.

Lemma read_only_print_session_line (s : datetime * timedelta) :
  read_only (print_session_line s).
Proof. unfold print_session_line. frame_steps. Qed.

Lemma read_only_show_log (week_offset : Z) : read_only (show_log week_offset).
Proof.
  pose proof read_only_print_session_line.
  unfold show_log. frame_steps.
Qed.

(** ** The read-only queries *)

(** C10: status, the weekly log, the deadline check and the to-do
    listing leave the work log, the to-do list and the active-session
    marker exactly as they found them, from every starting state and
    whatever their outcome. *)
Theorem queries_leave_the_store_unchanged (w : World) (week_offset : Z) :
  store (after show_status w) = store w /\
  store (after (show_log week_offset) w) = store w /\
  store (after check_deadlines w) = store w /\
  store (after list_todos w) = store w.
Proof.
  repeat split.
  - apply read_only_show_status.
  - apply read_only_show_log.
  - apply read_only_check_deadlines.
  - apply read_only_list_todos.
Qed.

(* ------------------------------------------------------------------ *)
(** ** Commands that cannot fail *)

Lemma never_fails_bind {A B : Type} (m : M A) (k : A -> M B) :
  never_fails m -> (forall a, never_fails (k a)) -> never_fails (bind m k).
Proof.
  intros Hm Hk w. unfold result. rewrite bind_run.
  destruct (Hm w) as [a Ha]. unfold result in Ha.
  destruct (m w) as [r w']. cbn in Ha. subst r. apply Hk.
Qed.

Lemma never_fails_ret {A : Type} (a : A) : never_fails (ret a).
Proof. intros w. now exists a. Qed.

Lemma never_fails_print (m : message) : never_fails (print m).
Proof. intros w. now exists tt. Qed.

Lemma never_fails_read_json_file {A : Type} (p : path A) (d : A) :
  never_fails (read_json_file p d).
Proof.
  intros w. unfold result, read_json_file.
  destruct (get p (store w)); eexists; reflexivity.
Qed.

Lemma never_fails_for_each {A : Type} (items : list A) (body : A -> M unit) :
  (forall a, never_fails (body a)) -> never_fails (for_each items body).
Proof.
  intros Hbody. induction items as [|item rest IH]; cbn [for_each].
  - apply never_fails_ret.
  - apply never_fails_bind; [apply Hbody | intros _; exact IH].
Qed.

Lemma never_fails_unit (m : M unit) (w : World) :
  never_fails m -> result m w = Return tt.
Proof. intros H. destruct (H w) as [[] Hw]. exact Hw. Qed.

Lemma never_fails_print_group (entry : string * list (Z * Todo)) :
  never_fails (print_group entry).
Proof.
  destruct entry as [g items]. unfold print_group.
  repeat (apply never_fails_bind; [apply never_fails_print | intros _]).
  apply never_fails_for_each. intros [id todo]. apply never_fails_print.
Qed.

Lemma never_fails_list_todos : never_fails list_todos.
Proof.
  unfold list_todos.
  apply never_fails_bind; [apply never_fails_read_json_file | intros todos].
  destruct (is_empty todos); [apply never_fails_print|].
  apply never_fails_bind; [|intros _; apply never_fails_print].
  apply never_fails_for_each, never_fails_print_group.
Qed.

(** Runs the primitive steps of a command on the world at hand. *)
Ltac run_monad :=
  cbv [bind ret raise sys_exit checked datetime_now date_today print
       write_json_file when option_bind];
  cbv beta iota.

(** Reading a list file gives its contents. *)
Lemma read_todos_run (w : World) :
  read_json_file TODOS_FILE [] w = (Return (todo_list (store w)), w).
Proof.
  unfold read_json_file, todo_list, contents. cbn [get TODOS_FILE].
  destruct (todos_json (store w)); reflexivity.
Qed.

Lemma read_work_log_run (w : World) :
  read_json_file WORK_LOG_FILE [] w = (Return (work_log (store w)), w).
Proof.
  unfold read_json_file, work_log, contents. cbn [get WORK_LOG_FILE].
  destruct (work_log_json (store w)); reflexivity.
Qed.

(** A command followed by the listing: the listing changes neither the
    outcome nor the files. *)
Lemma then_list_todos (w : World) :
  result list_todos w = Return tt /\ store (after list_todos w) = store w.
Proof.
  split; [apply never_fails_unit, never_fails_list_todos | apply read_only_list_todos].
Qed.

(* ------------------------------------------------------------------ *)
(** ** Starting while a session is active *)

(** C2: when the active-session marker is on disk, [start] prints the
    error and exits with status 1, and the work log, the to-do list and
    the marker are exactly as before. *)
Theorem start_while_active_fails (w : World) (session : Session) :
  active_session_json (store w) = Holds session ->
  result start_work w = SystemExit 1 /\
  store (after start_work w) = store w /\
  trace (after start_work w) = trace w ++ [Print MsgAlreadyActive].
Proof.
  intros H. unfold result, after, start_work.
  rewrite bind_run. unfold get_active_session. cbn [get ACTIVE_SESSION_FILE].
  rewrite H. repeat split.
Qed.

Lemma start_while_active_fails_witness :
  let w := world_at {| work_log_json := Missing; todos_json := Missing;
                       active_session_json :=
                         Holds {| start_time := at_ymd_hms wednesday_2024_01_10 9 0 0 |} |}
                    (at_ymd_hms wednesday_2024_01_10 15 0 0) in
  result start_work w = SystemExit 1 /\
  store (after start_work w) = store w /\
  trace (after start_work w) = trace w ++ [Print MsgAlreadyActive].
Proof.
  intros w.
  apply (start_while_active_fails w {| start_time := at_ymd_hms wednesday_2024_01_10 9 0 0 |}).
  reflexivity.
Defined.

(* ------------------------------------------------------------------ *)
(** ** Adding and removing to-do items *)

Lemma strptime_empty : strptime "" = None.
Proof. reflexivity. Qed.

Lemma given_nonempty (d : string) : d <> "" -> given (Some d) = Some d.
Proof.
  intros H. unfold given. destruct (String.eqb_spec d ""); [contradiction | reflexivity].
Qed.

(** C8, as amended: for every store and every non-empty deadline string
    that [strptime] rejects, [add] prints the error, exits with status 1
    and writes nothing: the store is identical before and after. *)
Theorem add_todo_rejects_unparsable_deadline
    (w : World) (task group d : string) :
  d <> "" ->
  strptime d = None ->
  result (add_todo task group (Some d)) w = SystemExit 1 /\
  store (after (add_todo task group (Some d)) w) = store w /\
  trace (after (add_todo task group (Some d)) w) = trace w ++ [Print (MsgInvalidDeadline d)].
Proof.
  intros Hd Hparse. unfold result, after, add_todo.
  rewrite bind_run, read_todos_run, given_nonempty, Hparse by exact Hd.
  repeat split.
Qed.

Lemma add_todo_rejects_unparsable_deadline_witness :
  let w := world_at empty_store (at_ymd_hms wednesday_2024_01_10 15 0 0) in
  result (add_todo "report" "General" (Some "2024-13-01")) w = SystemExit 1 /\
  store (after (add_todo "report" "General" (Some "2024-13-01")) w) = store w /\
  trace (after (add_todo "report" "General" (Some "2024-13-01")) w)
    = trace w ++ [Print (MsgInvalidDeadline "2024-13-01")].
Proof.
  intros w.
  apply (add_todo_rejects_unparsable_deadline w "report" "General" "2024-13-01").
  - discriminate.
  - reflexivity.
Defined.

(** C8 as stated fails: the empty string does not parse as a date, yet
    [add] takes it for no deadline at all, succeeds and writes the item. *)
Lemma add_todo_accepts_empty_deadline :
  ~ (forall (w : World) (task group d : string),
       strptime d = None ->
       result (add_todo task group (Some d)) w = SystemExit 1 /\
       store (after (add_todo task group (Some d)) w) = store w).
Proof.
  intros H.
  specialize (H (world_at empty_store (at_ymd_hms wednesday_2024_01_10 15 0 0))
                "report" "General" "" strptime_empty).
  destruct H as [H _]. vm_compute in H. discriminate H.
Qed.

(** What [add] does with the empty deadline, spelled out. *)
Lemma add_todo_empty_deadline_run :
  let w := world_at empty_store (at_ymd_hms wednesday_2024_01_10 15 0 0) in
  result (add_todo "report" "General" (Some "")) w = Return tt /\
  todos_json (store (after (add_todo "report" "General" (Some "")) w))
    = Holds [{| task := "report"; group := Some "General"; deadline := None |}].
Proof. vm_compute. split; reflexivity. Qed.

Lemma nth_error_remove {A : Type} (l : list A) (i k : nat) :
  nth_error (firstn i l ++ skipn (S i) l) k
  = if (k <? i)%nat then nth_error l k else nth_error l (S k).
Proof.
  revert i k. induction l as [|x l IH]; intros i k.
  - assert (Hnil : forall n, nth_error (@nil A) n = None) by (intros []; reflexivity).
    rewrite firstn_nil, skipn_nil, !Hnil.
    destruct (k <? i)%nat; reflexivity.
  - destruct i as [|i].
    + cbn. reflexivity.
    + destruct k as [|k]; [reflexivity|].
      cbn [firstn skipn app nth_error]. rewrite IH.
      reflexivity.
Qed.

Lemma pop_in_range {A : Type} (l : list A) (i : Z) :
  0 <= i < len l ->
  exists x, nth_error l (Z.to_nat i) = Some x /\
            pop l i = Some (x, firstn (Z.to_nat i) l ++ skipn (S (Z.to_nat i)) l).
Proof.
  intros Hi. unfold pop.
  destruct (Z.ltb_spec i 0) as [Hneg|_]; [lia|].
  destruct (Z.leb_spec 0 i) as [_|Hneg]; [|lia].
  destruct (Z.ltb_spec i (len l)) as [_|Hbig]; [|lia].
  cbn [andb].
  destruct (nth_error l (Z.to_nat i)) as [x|] eqn:E.
  - exists x. split; reflexivity.
  - apply nth_error_None in E. unfold len in Hi. lia.
Qed.

Lemma length_remove {A : Type} (l : list A) (i : nat) :
  (i < List.length l)%nat ->
  len (firstn i l ++ skipn (S i) l) = len l - 1.
Proof.
  intros Hi. unfold len.
  rewrite length_app, length_firstn, length_skipn. lia.
Qed.

(** C9: with [n] items on the list, [remove id] for an [id] outside
    [1 <= id <= n] prints the error, exits with status 1 and leaves the
    store as it was; for an [id] in range it writes the list without the
    item at position [id]: the items before it keep their positions and
    every later item moves down by one. *)
Theorem remove_todo_by_position (w : World) (todo_id : Z) :
  let todos := todo_list (store w) in
  let w' := after (remove_todo todo_id) w in
  if (1 <=? todo_id) && (todo_id <=? len todos) then
    result (remove_todo todo_id) w = Return tt /\
    todos_json (store w')
      = Holds (firstn (Z.to_nat (todo_id - 1)) todos ++ skipn (Z.to_nat todo_id) todos) /\
    work_log_json (store w') = work_log_json (store w) /\
    active_session_json (store w') = active_session_json (store w) /\
    len (todo_list (store w')) = len todos - 1 /\
    (forall k : nat,
       nth_error (todo_list (store w')) k
       = if Z.of_nat k <? todo_id - 1 then nth_error todos k else nth_error todos (S k))
  else
    result (remove_todo todo_id) w = SystemExit 1 /\
    store w' = store w /\
    trace w' = trace w ++ [Print (MsgInvalidId todo_id)].
Proof.
  intros todos w'. subst w'. unfold result, after, remove_todo.
  rewrite bind_run, read_todos_run. fold todos.
  destruct (Z.leb_spec 1 todo_id) as [Hlo|Hlo];
    destruct (Z.leb_spec todo_id (len todos)) as [Hhi|Hhi]; cbn [andb];
    destruct (Z.ltb_spec 0 todo_id) as [Hlo'|Hlo']; try lia; cbn [andb negb];
    try (repeat split; fail).
  destruct (pop_in_range todos (todo_id - 1) ltac:(lia)) as (removed & Hnth & Hpop).
  rewrite Hpop.
  replace (S (Z.to_nat (todo_id - 1))) with (Z.to_nat todo_id) by lia.
  set (rest := firstn (Z.to_nat (todo_id - 1)) todos ++ skipn (Z.to_nat todo_id) todos).
  rewrite bind_run. cbn [write_json_file].
  rewrite bind_run. cbn [print].
  match goal with
  | |- context [list_todos ?w1] =>
      destruct (then_list_todos w1) as [Hres Hstore];
      unfold result, after in Hres, Hstore;
      destruct (list_todos w1) as [r w2]
  end.
  cbn [fst snd] in *. subst r. rewrite Hstore.
  cbn [store with_event with_store set TODOS_FILE todos_json work_log_json
       active_session_json todo_list contents].
  repeat split.
  - subst rest. replace (Z.to_nat todo_id) with (S (Z.to_nat (todo_id - 1))) by lia.
    apply length_remove. unfold len in Hhi. lia.
  - intros k. subst rest.
    replace (Z.to_nat todo_id) with (S (Z.to_nat (todo_id - 1))) by lia.
    rewrite nth_error_remove.
    destruct (Nat.ltb_spec k (Z.to_nat (todo_id - 1)));
      destruct (Z.ltb_spec (Z.of_nat k) (todo_id - 1)); try lia; reflexivity.
Qed.

(* ------------------------------------------------------------------ *)
(** ** Pruning the work log *)

Lemma filter_all_kept {A : Type} (f : A -> bool) (l : list A) :
  len l - len (filter f l) <= 0 -> filter f l = l.
Proof.
  unfold len. induction l as [|x l IH]; intros H; [reflexivity|].
  pose proof (filter_length_le f l) as Hle.
  cbn [filter] in *. destruct (f x); cbn [List.length] in *.
  - f_equal. apply IH. lia.
  - lia.
Qed.

Lemma filter_idempotent {A : Type} (f : A -> bool) (l : list A) :
  filter f (filter f l) = filter f l.
Proof.
  induction l as [|x l IH]; [reflexivity|].
  cbn [filter]. destruct (f x) eqn:E; [|exact IH].
  cbn [filter]. rewrite E, IH. reflexivity.
Qed.

Lemma prune_cutoff_ok (now : datetime) (months_to_keep : Z) :
  valid_datetime now ->
  valid_datetime (now - months_to_keep * MONTH_US) ->
  prune_cutoff now months_to_keep = Some (now - months_to_keep * MONTH_US).
Proof.
  intros Hnow Hcut. unfold prune_cutoff, timedelta_months.
  fold MONTH_US. replace (months_to_keep * 61 * (US_PER_DAY / 2))
    with (months_to_keep * MONTH_US) by (unfold MONTH_US; lia).
  rewrite mk_timedelta_ok by (unfold valid_datetime in *; lia).
  cbn [option_bind]. now apply datetime_sub_ok.
Qed.

Lemma prune_cutoff_some (now : datetime) (months_to_keep : Z) (cutoff : datetime) :
  prune_cutoff now months_to_keep = Some cutoff ->
  cutoff = now - months_to_keep * MONTH_US /\ valid_datetime cutoff.
Proof.
  unfold prune_cutoff, timedelta_months, datetime_sub.
  destruct (mk_timedelta _) as [delta|] eqn:E; [|discriminate].
  cbn [option_bind]. intros H.
  apply mk_timedelta_some in E. apply datetime_add_some in H.
  destruct H as [-> Hv]. subst delta. split; [unfold MONTH_US; lia | exact Hv].
Qed.

(** Everything one run of [prune_old_logs] does to the world, by cases on
    the log it reads and on the cutoff it computes. *)
Lemma prune_old_logs_effect (w : World) (months_to_keep : Z) (silent : bool) :
  let l := work_log (store w) in
  let w' := after (prune_old_logs months_to_keep silent) w in
  clock w' = clock w /\
  match l with
  | [] =>
      result (prune_old_logs months_to_keep silent) w = Return tt /\
      store w' = store w /\ ticks w' = ticks w
  | _ :: _ =>
      ticks w' = S (ticks w) /\
      match prune_cutoff (next_reading w) months_to_keep with
      | None =>
          result (prune_old_logs months_to_keep silent) w = Raised OverflowError /\
          store w' = store w
      | Some cutoff =>
          result (prune_old_logs months_to_keep silent) w = Return tt /\
          store w' = (if 0 <? len l - len (filter (kept cutoff) l)
                      then set WORK_LOG_FILE (Holds (filter (kept cutoff) l)) (store w)
                      else store w)
      end
  end.
Proof.
  intros l w'. subst w'. unfold result, after, prune_old_logs.
  rewrite bind_run, read_work_log_run. fold l.
  destruct l as [|entry rest] eqn:El; cbn [is_empty].
  - destruct silent; repeat split.
  - unfold prune_cutoff, next_reading. run_monad.
    destruct (timedelta_months months_to_keep) as [delta|]; run_monad; [|repeat split].
    destruct (datetime_sub (clock w (ticks w)) delta) as [cutoff|]; run_monad;
      [|repeat split].
    fold (kept cutoff).
    destruct (0 <? len (entry :: rest) - len (filter (kept cutoff) (entry :: rest)));
      destruct silent; repeat split.
Qed.

Lemma work_log_after_write (s : Store) (l : list LogEntry) :
  work_log (set WORK_LOG_FILE (Holds l) s) = l.
Proof. reflexivity. Qed.

(** The log read back after one run of [prune_old_logs] whose cutoff was
    computed: written or not, it is the filtered log. *)
Lemma pruned_store_log (s : Store) (cutoff : datetime) :
  let l := work_log s in
  work_log (if 0 <? len l - len (filter (kept cutoff) l)
            then set WORK_LOG_FILE (Holds (filter (kept cutoff) l)) s
            else s)
  = filter (kept cutoff) l.
Proof.
  intros l. destruct (Z.ltb_spec 0 (len l - len (filter (kept cutoff) l))) as [H|H].
  - apply work_log_after_write.
  - fold l. symmetry. now apply filter_all_kept.
Qed.

Lemma pruned_store_frame (s : Store) (b : bool) (l : list LogEntry) :
  todos_json (if b then set WORK_LOG_FILE (Holds l) s else s) = todos_json s /\
  active_session_json (if b then set WORK_LOG_FILE (Holds l) s else s)
    = active_session_json s.
Proof. destruct b; split; reflexivity. Qed.

(** One run of [prune_old_logs] whose cutoff lies on the calendar. *)
Lemma prune_old_logs_kept (w : World) (months_to_keep : Z) (silent : bool) :
  let cutoff := next_reading w - months_to_keep * MONTH_US in
  let w' := after (prune_old_logs months_to_keep silent) w in
  valid_datetime (next_reading w) ->
  valid_datetime cutoff ->
  result (prune_old_logs months_to_keep silent) w = Return tt /\
  work_log (store w') = filter (kept cutoff) (work_log (store w)) /\
  todos_json (store w') = todos_json (store w) /\
  active_session_json (store w') = active_session_json (store w).
Proof.
  intros cutoff w' Hnow Hcut.
  pose proof (prune_old_logs_effect w months_to_keep silent) as H.
  cbv zeta in H. fold w' in H. destruct H as [_ H].
  destruct (work_log (store w)) as [|entry rest] eqn:El.
  - destruct H as (Hres & Hstore & _). rewrite Hstore, El. repeat split; assumption.
  - destruct H as (_ & H).
    rewrite (prune_cutoff_ok (next_reading w) _ Hnow Hcut) in H. fold cutoff in H.
    destruct H as [Hres Hstore]. rewrite Hstore, <- El.
    split; [exact Hres|]. split; [apply pruned_store_log|].
    apply pruned_store_frame.
Qed.

(** C5, as amended: for every work log and every months value [m] whose
    cutoff [now - m * 30.5 days] is a valid datetime, [prune m] returns
    normally and the work log read back afterwards is the old one
    restricted to the entries whose end is at or after the cutoff, in
    their order; an entry ending exactly at the cutoff is kept, and the
    to-do list and the session marker are not touched. *)
Theorem prune_retains_exactly (w : World) (months_to_keep : Z) (silent : bool) :
  let now := next_reading w in
  let cutoff := now - months_to_keep * MONTH_US in
  let w' := after (prune_old_logs months_to_keep silent) w in
  valid_datetime now ->
  valid_datetime cutoff ->
  result (prune_old_logs months_to_keep silent) w = Return tt /\
  2 * (now - cutoff) = months_to_keep * 61 * US_PER_DAY /\
  work_log (store w') = filter (fun entry => cutoff <=? end_ entry) (work_log (store w)) /\
  (forall entry,
     In entry (work_log (store w')) <->
     In entry (work_log (store w)) /\ cutoff <= end_ entry) /\
  (forall entry,
     In entry (work_log (store w)) -> end_ entry = cutoff ->
     In entry (work_log (store w'))) /\
  todos_json (store w') = todos_json (store w) /\
  active_session_json (store w') = active_session_json (store w).
Proof.
  intros now cutoff w' Hnow Hcut.
  pose proof (prune_old_logs_kept w months_to_keep silent Hnow Hcut) as Hlog.
  cbv zeta in Hlog. fold now cutoff w' in Hlog.
  destruct Hlog as (Hres & Hfilter & Htodos & Hactive).
  assert (Hin : forall entry,
             In entry (work_log (store w')) <->
             In entry (work_log (store w)) /\ cutoff <= end_ entry).
  { intros entry. rewrite Hfilter, filter_In. unfold kept. now rewrite Z.leb_le. }
  split; [exact Hres|].
  split.
  { unfold cutoff. change MONTH_US with 2635200000000.
    change US_PER_DAY with 86400000000. lia. }
  split; [exact Hfilter|].
  split; [exact Hin|].
  split; [|split; assumption].
  intros entry Hold Heq. apply Hin. split; [exact Hold | lia].
Qed.

Lemma prune_retains_exactly_witness :
  let w := world_at sample_store (at_ymd_hms wednesday_2024_01_10 15 0 0) in
  valid_datetime (next_reading w) /\
  valid_datetime (next_reading w - 6 * MONTH_US) /\
  work_log (store (after (prune_old_logs 6 false) w)) = [boundary_entry; recent_entry].
Proof.
  intros w.
  assert (Hnow : valid_datetime (next_reading w)).
  { vm_compute. split; [discriminate | reflexivity]. }
  assert (Hcut : valid_datetime (next_reading w - 6 * MONTH_US)).
  { vm_compute. split; [discriminate | reflexivity]. }
  split; [exact Hnow|]. split; [exact Hcut|].
  destruct (prune_retains_exactly w 6 false Hnow Hcut) as (_ & _ & Hlog & _).
  rewrite Hlog. reflexivity.
Defined.

(** C5 as stated fails: with [m = -100000] the cutoff lies far after
    year 9999; every entry of the log ends before it, so all of them
    should go, but [prune] raises [OverflowError] on computing the cutoff
    and the log keeps its three entries. *)
Lemma prune_off_calendar_discards_nothing :
  ~ (forall (w : World) (months_to_keep : Z) (silent : bool),
       work_log (store (after (prune_old_logs months_to_keep silent) w))
       = filter (fun entry => next_reading w - months_to_keep * MONTH_US <=? end_ entry)
                (work_log (store w))).
Proof.
  intros H.
  specialize (H (world_at sample_store (at_ymd_hms wednesday_2024_01_10 15 0 0))
                (-100000) false).
  vm_compute in H. discriminate H.
Qed.

(** What [prune] does there, spelled out. *)
Lemma prune_off_calendar_run :
  let w := world_at sample_store (at_ymd_hms wednesday_2024_01_10 15 0 0) in
  result (prune_old_logs (-100000) false) w = Raised OverflowError /\
  work_log (store (after (prune_old_logs (-100000) false) w))
    = [old_entry; boundary_entry; recent_entry] /\
  filter (fun entry => next_reading w - (-100000) * MONTH_US <=? end_ entry)
         (work_log (store w)) = [].
Proof. vm_compute. repeat split; reflexivity. Qed.

(** C6: when the second run of [prune m] reads the same time as the
    first, so that both use the same cutoff, and nothing was added in
    between, the second run removes nothing: every file, the work log
    among them, is identical before and after it. *)
Theorem prune_twice_removes_nothing
    (w : World) (months_to_keep : Z) (silent silent' : bool) :
  let w1 := after (prune_old_logs months_to_keep silent) w in
  let w2 := after (prune_old_logs months_to_keep silent') w1 in
  next_reading w1 = next_reading w ->
  store w2 = store w1 /\
  len (work_log (store w1)) - len (work_log (store w2)) = 0.
Proof.
  intros w1 w2 Hsame.
  enough (Hstore : store w2 = store w1) by (split; [exact Hstore | rewrite Hstore; lia]).
  pose proof (prune_old_logs_effect w months_to_keep silent) as H1.
  pose proof (prune_old_logs_effect w1 months_to_keep silent') as H2.
  cbv zeta in H1, H2. fold w1 in H1. fold w2 in H2.
  destruct H1 as [_ H1]. destruct H2 as [_ H2].
  destruct (work_log (store w)) as [|entry rest] eqn:El.
  - destruct H1 as (_ & Hstore1 & _).
    assert (El1 : work_log (store w1) = []) by (rewrite Hstore1; exact El).
    rewrite El1 in H2. apply H2.
  - destruct H1 as (_ & H1).
    destruct (prune_cutoff (next_reading w) months_to_keep) as [cutoff|] eqn:Ecut.
    + destruct H1 as (_ & Hstore1).
      assert (Hlog1 : work_log (store w1) = filter (kept cutoff) (entry :: rest)).
      { rewrite Hstore1, <- El. apply pruned_store_log. }
      destruct (work_log (store w1)) as [|entry1 rest1] eqn:El1; [apply H2|].
      destruct H2 as (_ & H2). rewrite Hsame, Ecut in H2.
      destruct H2 as (_ & Hstore2). rewrite Hstore2.
      rewrite Hlog1, filter_idempotent, Z.sub_diag. reflexivity.
    + destruct H1 as (_ & Hstore1).
      assert (El1 : work_log (store w1) = entry :: rest) by (rewrite Hstore1; exact El).
      rewrite El1 in H2. destruct H2 as (_ & H2).
      rewrite Hsame, Ecut in H2. apply H2.
Qed.

Lemma prune_twice_removes_nothing_witness :
  let w := world_at sample_store (at_ymd_hms wednesday_2024_01_10 15 0 0) in
  let w1 := after (prune_old_logs 6 false) w in
  let w2 := after (prune_old_logs 6 false) w1 in
  work_log (store w1) = [boundary_entry; recent_entry] /\
  store w2 = store w1 /\
  len (work_log (store w1)) - len (work_log (store w2)) = 0.
Proof.
  intros w w1 w2. split; [reflexivity|].
  apply (prune_twice_removes_nothing w 6 false false). reflexivity.
Defined.

(* ------------------------------------------------------------------ *)
(** ** The deadline check *)

Lemma moved_zero (w : World) : moved w 0 [] = w.
Proof.
  destruct w. unfold moved. cbn. rewrite Nat.add_0_r, app_nil_r. reflexivity.
Qed.

Lemma moved_moved (w : World) (n m : nat) (e1 e2 : list event) :
  moved (moved w n e1) m e2 = moved w (n + m) (e1 ++ e2).
Proof.
  unfold moved. cbn. rewrite Nat.add_assoc, app_assoc. reflexivity.
Qed.

Lemma with_event_moved (w : World) (e : event) : with_event e w = moved w 0 [e].
Proof. unfold with_event, moved. rewrite Nat.add_0_r. reflexivity. Qed.

Lemma advance_moved (w : World) : advance w = moved w 1 [].
Proof.
  unfold advance, moved. rewrite app_nil_r, Nat.add_1_r. reflexivity.
Qed.

Lemma print_run (m : message) (w : World) :
  print m w = (Return tt, moved w 0 [Print m]).
Proof. unfold print. now rewrite with_event_moved. Qed.

Lemma runs_to_bind (m k : M unit) (w : World) (n n' : nat) (e e' : list event) :
  runs_to m w n e ->
  runs_to k (moved w n e) n' e' ->
  runs_to (m ;; k) w (n + n') (e ++ e').
Proof.
  unfold runs_to. intros Hm Hk. rewrite bind_run, Hm, Hk, moved_moved. reflexivity.
Qed.

Lemma runs_to_print (m : message) (w : World) : runs_to (print m) w 0 [Print m].
Proof. apply print_run. Qed.

Lemma runs_to_ret (w : World) : runs_to (ret tt) w 0 [].
Proof. unfold runs_to, ret. now rewrite moved_zero. Qed.

Lemma print_deadline_lines_run (tasks : list Todo) (w : World) :
  (forall todo, In todo tasks -> deadline todo <> None) ->
  runs_to (for_each tasks print_deadline_line) w 0 (map deadline_line tasks).
Proof.
  revert w. induction tasks as [|todo rest IH]; intros w Hall; cbn [for_each map].
  - apply runs_to_ret.
  - apply (runs_to_bind _ _ w 0 0 [deadline_line todo]).
    + unfold runs_to, print_deadline_line, deadline_line.
      destruct (deadline todo) as [due|] eqn:E.
      * apply print_run.
      * exfalso. apply (Hall todo); [now left | exact E].
    + apply IH. intros t Ht. apply Hall. now right.
Qed.

Lemma print_block_run (header : message) (tasks : list Todo) (w : World) :
  (forall todo, In todo tasks -> deadline todo <> None) ->
  runs_to (when (negb (is_empty tasks))
             (print header ;; for_each tasks print_deadline_line))
          w 0
          (if is_empty tasks then [] else Print header :: map deadline_line tasks).
Proof.
  intros Hall. destruct tasks as [|todo rest]; cbn [is_empty negb when].
  - apply runs_to_ret.
  - apply (runs_to_bind _ _ w 0 0 [Print header]).
    + apply runs_to_print.
    + now apply print_deadline_lines_run.
Qed.

Lemma print_notifications_run (overdue_tasks upcoming_tasks : list Todo) (w : World) :
  (forall todo, In todo overdue_tasks -> deadline todo <> None) ->
  (forall todo, In todo upcoming_tasks -> deadline todo <> None) ->
  is_empty overdue_tasks && is_empty upcoming_tasks = false ->
  runs_to (print_notifications overdue_tasks upcoming_tasks) w 0
          (notification_events overdue_tasks upcoming_tasks).
Proof.
  intros Ho Hu Hne. unfold notification_events, print_notifications. rewrite Hne.
  apply (runs_to_bind _ _ w 0 0 [Print MsgDeadlineHeader]); [apply runs_to_print|].
  apply (runs_to_bind _ _ _ 0 0 [Print MsgDeadlineRule]); [apply runs_to_print|].
  apply (runs_to_bind _ _ _ 0 0); [now apply print_block_run|].
  apply (runs_to_bind _ _ _ 0 0); [now apply print_block_run|].
  apply runs_to_print.
Qed.

Lemma parsed_deadline_is_given (todo : Todo) (d : date) :
  option_bind (deadline todo) parse_deadline = Some d ->
  get_truthy (deadline todo) = true.
Proof.
  destruct (deadline todo) as [[| b | n | s]|]; cbn; try discriminate.
  destruct (String.eqb_spec s ""); [subst; discriminate | reflexivity].
Qed.

Lemma is_overdue_spec (today : date) (todo : Todo) :
  is_overdue today todo = true <->
  exists v d, deadline todo = Some v /\ parse_deadline v = Some d /\ d < today.
Proof.
  unfold is_overdue. destruct (deadline todo) as [v|]; cbn [option_bind].
  - destruct (parse_deadline v) as [d|] eqn:E.
    + rewrite Z.ltb_lt. split.
      * intros H. exists v, d. repeat split; assumption.
      * intros (v' & d' & [= <-] & Hp & H). congruence.
    + split; [discriminate | intros (? & ? & [= <-] & ? & _); congruence].
  - split; [discriminate | intros (? & ? & ? & _); discriminate].
Qed.

Lemma is_upcoming_spec (today : date) (todo : Todo) :
  is_upcoming today todo = true <->
  exists v d, deadline todo = Some v /\ parse_deadline v = Some d /\
              today <= d <= today + 2.
Proof.
  unfold is_upcoming. destruct (deadline todo) as [v|]; cbn [option_bind].
  - destruct (parse_deadline v) as [d|] eqn:E.
    + rewrite andb_true_iff, !Z.leb_le. split.
      * intros H. exists v, d. repeat split; try assumption; apply H.
      * intros (v' & d' & [= <-] & Hp & H). congruence.
    + split; [discriminate | intros (? & ? & [= <-] & ? & _); congruence].
  - split; [discriminate | intros (? & ? & ? & _); discriminate].
Qed.

(** The loop of the code computes the two filters of the specification. *)
Lemma deadline_loop_filters (today : date) (todos overdue_tasks upcoming_tasks : list Todo) :
  deadline_loop today (today + 2) todos overdue_tasks upcoming_tasks
  = (overdue_tasks ++ filter (is_overdue today) todos,
     upcoming_tasks ++ filter (is_upcoming today) todos).
Proof.
  revert overdue_tasks upcoming_tasks.
  induction todos as [|todo rest IH]; intros o u; cbn [deadline_loop filter].
  - now rewrite !app_nil_r.
  - unfold is_overdue, is_upcoming.
    destruct (deadline todo) as [v|]; cbn [option_bind]; [|apply IH].
    destruct (parse_deadline v) as [d|]; [|apply IH].
    destruct (Z.ltb_spec d today) as [Hlt|Hge].
    + destruct (Z.leb_spec today d); [lia|]. cbn [andb].
      rewrite IH, <- app_assoc. reflexivity.
    + destruct (Z.leb_spec today d); [|lia]. cbn [andb].
      destruct (d <=? today + 2).
      * rewrite IH, <- app_assoc. reflexivity.
      * apply IH.
Qed.

Lemma no_deadline_no_report (f : Todo -> bool) (todos : list Todo) :
  (forall todo, f todo = true -> get_truthy (deadline todo) = true) ->
  existsb (fun todo => get_truthy (deadline todo)) todos = false ->
  filter f todos = [].
Proof.
  intros Hf. induction todos as [|todo rest IH]; [reflexivity|].
  cbn [existsb filter]. intros H. apply orb_false_iff in H. destruct H as [Ht Hrest].
  destruct (f todo) eqn:E; [|now apply IH].
  apply Hf in E. congruence.
Qed.

Lemma overdue_is_given (today : date) (todo : Todo) :
  is_overdue today todo = true -> get_truthy (deadline todo) = true.
Proof.
  unfold is_overdue. destruct (option_bind _ _) as [d|] eqn:E; [|discriminate].
  intros _. now apply parsed_deadline_is_given with d.
Qed.

Lemma upcoming_is_given (today : date) (todo : Todo) :
  is_upcoming today todo = true -> get_truthy (deadline todo) = true.
Proof.
  unfold is_upcoming. destruct (option_bind _ _) as [d|] eqn:E; [|discriminate].
  intros _. now apply parsed_deadline_is_given with d.
Qed.

Lemma classified_has_deadline (f : Todo -> bool) (todos : list Todo) :
  (forall todo, f todo = true -> get_truthy (deadline todo) = true) ->
  forall todo, In todo (filter f todos) -> deadline todo <> None.
Proof.
  intros Hf todo Hin. apply filter_In in Hin. destruct Hin as [_ Hin].
  apply Hf in Hin. intros E. rewrite E in Hin. discriminate.
Qed.

Lemma date_add_days (d n : Z) :
  valid_date (d + n) -> date_add d (n * US_PER_DAY) = Some (d + n).
Proof.
  unfold valid_date, date_add. intros [Hlo Hhi]. cbv zeta.
  rewrite Z.div_mul by discriminate.
  apply Z.leb_le in Hlo, Hhi. now rewrite Hlo, Hhi.
Qed.

(** One run of the deadline check, as long as the day after tomorrow is
    on the calendar. *)
Lemma check_deadlines_run (w : World) :
  let today := date_of (next_reading w) in
  let todos := todo_list (store w) in
  valid_date (today + 2) ->
  runs_to check_deadlines w (deadline_readings (store w))
          (notification_events (filter (is_overdue today) todos)
                               (filter (is_upcoming today) todos)).
Proof.
  intros today todos Hsoon. unfold runs_to, check_deadlines, deadline_readings.
  rewrite bind_run, read_todos_run. fold todos.
  destruct (existsb (fun todo => get_truthy (deadline todo)) todos) eqn:Eany; cbn [negb].
  - rewrite bind_run. cbn [date_today]. rewrite bind_run.
    change (timedelta_days 2) with (Some (2 * US_PER_DAY)). cbn [checked].
    unfold ret at 1. cbv beta iota. rewrite bind_run.
    change (clock w (ticks w)) with (next_reading w). fold today.
    rewrite date_add_days by exact Hsoon. cbn [checked].
    unfold ret at 1. cbv beta iota.
    rewrite deadline_loop_filters. cbn [app].
    set (overdue_tasks := filter (is_overdue today) todos).
    set (upcoming_tasks := filter (is_upcoming today) todos).
    rewrite advance_moved.
    destruct (is_empty overdue_tasks && is_empty upcoming_tasks) eqn:Enone.
    + unfold notification_events. rewrite Enone. reflexivity.
    + rewrite print_notifications_run; [now rewrite moved_moved| | |exact Enone].
      * apply classified_has_deadline, overdue_is_given.
      * apply classified_has_deadline, upcoming_is_given.
  - rewrite (no_deadline_no_report (is_overdue today)), (no_deadline_no_report (is_upcoming today));
      try exact Eany; try apply upcoming_is_given; try apply overdue_is_given.
    unfold ret. now rewrite moved_zero.
Qed.

Lemma date_of_valid (t : datetime) : valid_datetime t -> 1 <= date_of t <= MAXORDINAL.
Proof.
  unfold valid_datetime, date_of, MAX_US. intros [Hlo Hhi]. split.
  - assert (0 <= t / US_PER_DAY) by (apply Z.div_pos; [exact Hlo | reflexivity]). lia.
  - assert (t / US_PER_DAY < MAXORDINAL); [|lia].
    apply Z.div_lt_upper_bound; [reflexivity | lia].
Qed.

(** C7: as long as the day after tomorrow is on the calendar, the
    deadline check returns without error and reports, in the order of the
    list, exactly the items whose deadline parses to a date before today
    as overdue and exactly those whose deadline parses to a date from
    today to today + 2 days as upcoming; an item whose deadline is absent
    or does not parse is in neither list. *)
Theorem check_deadlines_classifies (w : World) :
  let today := date_of (next_reading w) in
  let todos := todo_list (store w) in
  let overdue_tasks := filter (is_overdue today) todos in
  let upcoming_tasks := filter (is_upcoming today) todos in
  valid_datetime (next_reading w) ->
  today + 2 <= MAXORDINAL ->
  deadline_loop today (today + 2) todos [] [] = (overdue_tasks, upcoming_tasks) /\
  result check_deadlines w = Return tt /\
  trace (after check_deadlines w)
    = trace w ++ notification_events overdue_tasks upcoming_tasks /\
  (forall todo,
     In todo overdue_tasks <->
     In todo todos /\
     exists v d, deadline todo = Some v /\ parse_deadline v = Some d /\ d < today) /\
  (forall todo,
     In todo upcoming_tasks <->
     In todo todos /\
     exists v d, deadline todo = Some v /\ parse_deadline v = Some d /\
                 today <= d <= today + 2) /\
  (forall todo,
     option_bind (deadline todo) parse_deadline = None ->
     ~ In todo overdue_tasks /\ ~ In todo upcoming_tasks).
Proof.
  intros today todos overdue_tasks upcoming_tasks Hnow Hsoon.
  pose proof (date_of_valid _ Hnow) as Htoday. fold today in Htoday.
  assert (Hrun : runs_to check_deadlines w (deadline_readings (store w))
                   (notification_events overdue_tasks upcoming_tasks)).
  { apply check_deadlines_run. unfold valid_date. fold today. lia. }
  unfold runs_to in Hrun. unfold result, after. rewrite Hrun. cbn [fst snd moved trace].
  split; [apply (deadline_loop_filters today todos [] [])|].
  split; [reflexivity|]. split; [reflexivity|].
  split; [|split].
  - intros todo. unfold overdue_tasks. now rewrite filter_In, is_overdue_spec.
  - intros todo. unfold upcoming_tasks. now rewrite filter_In, is_upcoming_spec.
  - intros todo Hnone. unfold overdue_tasks, upcoming_tasks.
    rewrite !filter_In. unfold is_overdue, is_upcoming. rewrite Hnone.
    split; intros [_ H]; discriminate H.
Qed.

Lemma check_deadlines_classifies_witness :
  let w := world_at sample_store (at_ymd_hms wednesday_2024_01_10 15 0 0) in
  let todos := todo_list (store w) in
  deadline_loop wednesday_2024_01_10 (wednesday_2024_01_10 + 2) todos [] []
    = ([ {| task := "late"; group := None; deadline := Some (JStr "2024-01-09") |} ],
       [ {| task := "today"; group := Some "Home"; deadline := Some (JStr "2024-01-10") |};
         {| task := "soon"; group := Some "Home"; deadline := Some (JStr "2024-01-12") |} ]) /\
  result check_deadlines w = Return tt.
Proof.
  intros w todos.
  assert (Hnow : valid_datetime (next_reading w)).
  { vm_compute. split; [discriminate | reflexivity]. }
  assert (Hsoon : date_of (next_reading w) + 2 <= MAXORDINAL).
  { vm_compute. discriminate. }
  destruct (check_deadlines_classifies w Hnow Hsoon) as (Hloop & Hres & _).
  split; [|exact Hres].
  etransitivity; [exact Hloop|]. reflexivity.
Defined.

(* ------------------------------------------------------------------ *)
(** ** A session from start to stop *)

Lemma bind_return {A B : Type} (m : M A) (k : A -> M B) (w w' : World) (a : A) :
  m w = (Return a, w') -> bind m k w = k a w'.
Proof. intros H. now rewrite bind_run, H. Qed.

Lemma systemd_warning_run (w : World) :
  runs_to systemd_warning w 0
    [Print (MsgSystemdWarning SYSTEMD_SERVICE_NAME); Print MsgSystemdMayNotWork].
Proof.
  unfold systemd_warning.
  apply (runs_to_bind _ _ w 0 0 [_] [_]); apply runs_to_print.
Qed.

(** Whether or not [systemctl] works, the command goes on: the service
    manager touches neither the files nor the clock. *)
Lemma manage_systemd_service_run (action : string) (w : World) :
  exists evs, runs_to (manage_systemd_service action) w 0 evs.
Proof.
  unfold manage_systemd_service, runs_to.
  destruct (String.eqb action "start").
  - rewrite bind_run. cbn [subprocess_run]. rewrite with_event_moved.
    destruct (systemctl w _).
    + eexists. reflexivity.
    + eexists. rewrite systemd_warning_run, moved_moved. reflexivity.
  - destruct (String.eqb action "stop"); [|exists []; apply runs_to_ret].
    rewrite bind_run. cbn [subprocess_run]. rewrite with_event_moved.
    destruct (systemctl w _).
    + rewrite bind_run. cbn [subprocess_run]. rewrite with_event_moved, moved_moved.
      destruct (systemctl _ _).
      * eexists. reflexivity.
      * eexists. rewrite systemd_warning_run, moved_moved. reflexivity.
    + eexists. rewrite systemd_warning_run, moved_moved. reflexivity.
Qed.

Lemma idle_reads_none (w : World) :
  active (store w) = false -> get_active_session w = (Return None, w).
Proof.
  unfold active, get_active_session. cbn [get ACTIVE_SESSION_FILE].
  destruct (active_session_json (store w)); [reflexivity | reflexivity | discriminate].
Qed.

(** [start] from Idle: the marker holds the reading taken right after the
    deadline check, and one more reading is taken for the message. *)
Lemma start_work_idle_run (w : World) :
  let first := (ticks w + deadline_readings (store w))%nat in
  let w1 := after start_work w in
  active (store w) = false ->
  valid_date (date_of (next_reading w) + 2) ->
  result start_work w = Return tt /\
  store w1 = set ACTIVE_SESSION_FILE (Holds {| start_time := clock w first |}) (store w) /\
  clock w1 = clock w /\
  ticks w1 = (first + 2)%nat.
Proof.
  intros first w1 Hidle Hsoon. subst w1. unfold result, after, start_work.
  rewrite (bind_return _ _ _ _ _ (idle_reads_none w Hidle)).
  rewrite (bind_return _ _ _ _ _ (check_deadlines_run w Hsoon)).
  set (wa := moved w _ _).
  rewrite bind_run. cbn [datetime_now].
  rewrite bind_run. cbn [write_json_file].
  rewrite bind_run.
  match goal with
  | |- context [manage_systemd_service ?a ?w0] =>
      destruct (manage_systemd_service_run a w0) as [evs Hsd]
  end.
  unfold runs_to in Hsd. rewrite Hsd.
  rewrite bind_run. cbn [datetime_now].
  rewrite bind_run. cbn [print].
  cbn. repeat split. subst first. lia.
Qed.

Lemma filter_app_kept (cutoff : datetime) (l : list LogEntry) (entry : LogEntry) :
  cutoff <= end_ entry ->
  filter (kept cutoff) (l ++ [entry]) = filter (kept cutoff) l ++ [entry].
Proof.
  intros H. rewrite filter_app. cbn [filter]. unfold kept at 2.
  apply Z.leb_le in H. now rewrite H.
Qed.

(** [stop] while Active: the entry is appended, the marker removed, and
    the automatic pruning runs on the reading that follows. *)
Lemma stop_work_active_run (w : World) (session : Session) :
  let end_time := next_reading w in
  let cutoff := clock w (S (ticks w)) - DEFAULT_MONTHS_TO_KEEP * MONTH_US in
  let w2 := after stop_work w in
  active_session_json (store w) = Holds session ->
  valid_datetime (clock w (S (ticks w))) ->
  valid_datetime cutoff ->
  result stop_work w = Return tt /\
  work_log (store w2)
    = filter (kept cutoff)
        (work_log (store w) ++ [{| start := start_time session; end_ := end_time |}]) /\
  active_session_json (store w2) = Missing /\
  todos_json (store w2) = todos_json (store w) /\
  ticks w2 = (ticks w + 2)%nat.
Proof.
  intros end_time cutoff w2 Hactive Hnow Hcut. subst w2.
  unfold result, after, stop_work.
  rewrite bind_run. unfold get_active_session. cbn [get ACTIVE_SESSION_FILE].
  rewrite Hactive. cbv beta iota.
  rewrite bind_run. cbn [datetime_now].
  rewrite (bind_return _ _ _ _ _ (read_work_log_run _)).
  rewrite bind_run. cbn [write_json_file].
  rewrite bind_run. unfold os_remove.
  cbn [get set ACTIVE_SESSION_FILE WORK_LOG_FILE store with_store advance
       active_session_json].
  rewrite Hactive. cbv beta iota.
  rewrite bind_run.
  match goal with
  | |- context [manage_systemd_service ?a ?w0] =>
      destruct (manage_systemd_service_run a w0) as [evs Hsd]
  end.
  unfold runs_to in Hsd. rewrite Hsd.
  rewrite bind_run, print_run, moved_moved.
  rewrite bind_run, print_run, moved_moved.
  match goal with
  | |- context [prune_old_logs ?m ?s ?w0] =>
      pose proof (prune_old_logs_kept w0 m s) as Hprune;
      pose proof (prune_old_logs_effect w0 m s) as Heff
  end.
  cbv zeta in Hprune, Heff. unfold result, after in Hprune, Heff.
  destruct (prune_old_logs _ _ _) as [r w2].
  cbn [fst snd] in *.
  change (next_reading (moved _ _ _)) with (clock w (S (ticks w + (0 + 0 + 0)))) in Hprune.
  rewrite !Nat.add_0_r in Hprune.
  destruct (Hprune Hnow Hcut) as (Hres & Hlog & Htodos & Hact).
  split; [exact Hres|]. split; [exact Hlog|]. split; [exact Hact|]. split; [exact Htodos|].
  destruct Heff as [_ Heff]. 
  change (work_log (store (moved _ _ _)))
    with (work_log (store w) ++ [{| start := start_time session; end_ := end_time |}]) in Heff.
  destruct (work_log (store w) ++ _) eqn:E.
  - apply app_eq_nil in E. destruct E as [_ E]. discriminate E.
  - destruct Heff as [Hticks _]. rewrite Hticks. cbn. lia.
Qed.

(** C1: [start] from Idle followed by [stop].  Both return normally; the
    work log read back afterwards is the old log (less what the automatic
    pruning of [stop] removed) followed by exactly one new entry, whose
    start is the reading [start] took and whose end is the reading [stop]
    took, so that end minus start is the time elapsed between the two;
    and the active-session marker is gone.  The calendar must hold the
    day after tomorrow and the pruning cutoff, and the pruning reading
    must come no more than six retention months after the reading of
    [stop]. *)
Theorem start_then_stop_logs_one_entry (w : World) :
  let first := (ticks w + deadline_readings (store w))%nat in
  let started := clock w first in
  let stopped := clock w (first + 2)%nat in
  let pruned_at := clock w (first + 3)%nat in
  let cutoff := pruned_at - DEFAULT_MONTHS_TO_KEEP * MONTH_US in
  let entry := {| start := started; end_ := stopped |} in
  let w1 := after start_work w in
  let w2 := after stop_work w1 in
  active (store w) = false ->
  valid_date (date_of (next_reading w) + 2) ->
  valid_datetime pruned_at ->
  valid_datetime cutoff ->
  cutoff <= stopped ->
  result start_work w = Return tt /\
  result stop_work w1 = Return tt /\
  work_log (store w2) = filter (kept cutoff) (work_log (store w)) ++ [entry] /\
  len (work_log (store w2)) = len (filter (kept cutoff) (work_log (store w))) + 1 /\
  end_ entry - start entry = stopped - started /\
  active_session_json (store w2) = Missing /\
  todos_json (store w2) = todos_json (store w).
Proof.
  intros first started stopped pruned_at cutoff entry w1 w2 Hidle Hsoon Hnow Hcut Hkeep.
  destruct (start_work_idle_run w Hidle Hsoon) as (Hres1 & Hstore1 & Hclock1 & Hticks1).
  fold first w1 in Hstore1, Hclock1, Hticks1.
  assert (Hmarker : active_session_json (store w1) = Holds {| start_time := started |}).
  { rewrite Hstore1. reflexivity. }
  assert (Hstop : next_reading w1 = stopped).
  { unfold next_reading. now rewrite Hclock1, Hticks1. }
  assert (Hprune : clock w1 (S (ticks w1)) = pruned_at).
  { rewrite Hclock1, Hticks1. unfold pruned_at. f_equal. lia. }
  pose proof (stop_work_active_run w1 _ Hmarker) as H2.
  cbv zeta in H2. fold w2 in H2. rewrite Hprune, Hstop in H2. fold cutoff in H2.
  destruct (H2 Hnow Hcut) as (Hres2 & Hlog & Hgone & Htodos & _).
  assert (Hlog1 : work_log (store w1) = work_log (store w)) by (rewrite Hstore1; reflexivity).
  assert (Htodos1 : todos_json (store w1) = todos_json (store w))
    by (rewrite Hstore1; reflexivity).
  rewrite Hlog1 in Hlog. cbn [start_time] in Hlog. fold entry in Hlog.
  rewrite filter_app_kept in Hlog by exact Hkeep.
  split; [exact Hres1|]. split; [exact Hres2|]. split; [exact Hlog|].
  split; [rewrite Hlog; unfold len; rewrite length_app; cbn [List.length]; lia|].
  split; [reflexivity|]. split; [exact Hgone|]. congruence.
Qed.

Lemma start_then_stop_logs_one_entry_witness :
  let now := at_ymd_hms wednesday_2024_01_10 15 0 0 in
  let w := world_at sample_store now in
  let w2 := after stop_work (after start_work w) in
  work_log (store w2) = [boundary_entry; recent_entry; {| start := now; end_ := now |}] /\
  active_session_json (store w2) = Missing.
Proof.
  intros now w w2.
  assert (Hidle : active (store w) = false) by reflexivity.
  assert (Hsoon : valid_date (date_of (next_reading w) + 2)).
  { vm_compute. split; discriminate. }
  assert (Hnow : valid_datetime (clock w (ticks w + deadline_readings (store w) + 3)%nat)).
  { vm_compute. split; [discriminate | reflexivity]. }
  assert (Hcut : valid_datetime
                   (clock w (ticks w + deadline_readings (store w) + 3)%nat
                    - DEFAULT_MONTHS_TO_KEEP * MONTH_US)).
  { vm_compute. split; [discriminate | reflexivity]. }
  assert (Hkeep : clock w (ticks w + deadline_readings (store w) + 3)%nat
                  - DEFAULT_MONTHS_TO_KEEP * MONTH_US
                  <= clock w (ticks w + deadline_readings (store w) + 2)%nat).
  { vm_compute. discriminate. }
  destruct (start_then_stop_logs_one_entry w Hidle Hsoon Hnow Hcut Hkeep)
    as (_ & _ & Hlog & _ & _ & Hgone & _).
  split; [|exact Hgone].
  etransitivity; [exact Hlog|]. reflexivity.
Defined.

(* ------------------------------------------------------------------ *)
(** ** The commands on sample data *)

(** Removing the first of three items leaves the other two at positions
    1 and 2. *)
Example remove_first_of_three :
  let a := {| task := "a"; group := None; deadline := None |} in
  let b := {| task := "b"; group := Some "Home"; deadline := None |} in
  let c := {| task := "c"; group := None; deadline := None |} in
  let w := world_at {| work_log_json := Missing; todos_json := Holds [a; b; c];
                       active_session_json := Missing |}
                    (at_ymd_hms wednesday_2024_01_10 15 0 0) in
  todos_json (store (after (remove_todo 1) w)) = Holds [b; c] /\
  trace (after (remove_todo 1) w)
  = [ Print (MsgRemoved "a");
      Print (MsgGroupHeader "General"); Print (MsgGroupUnderline 9);
      Print (MsgTodoLine 2 "c" None);
      Print (MsgGroupHeader "Home"); Print (MsgGroupUnderline 6);
      Print (MsgTodoLine 1 "b" None);
      Print MsgBlank ].
Proof. vm_compute. split; reflexivity. Qed.

(** [stop] while Idle reports that there is nothing to stop, exits with
    status 0 and writes nothing. *)
Example stop_while_idle :
  let w := world_at sample_store (at_ymd_hms wednesday_2024_01_10 15 0 0) in
  result stop_work w = SystemExit 0 /\
  store (after stop_work w) = store w.
Proof. vm_compute. split; reflexivity. Qed.

(** The dispatcher maps [log show last] to the offset -1. *)
Example main_log_show_last (w : World) :
  main (CmdLogShow "last") w = show_log (-1) w.
Proof. reflexivity. Qed.

(* ------------------------------------------------------------------ *)
(** * Further properties of the commands *)

(** ** Stopping while Idle *)

(** X1: [stop] with no marker on disk prints that there is nothing to
    stop, still asks the service manager to stop the hook, exits with
    status 0 and leaves the three files and the clock as they were. *)
Theorem stop_while_idle_changes_nothing (w : World) :
  active (store w) = false ->
  result stop_work w = SystemExit 0 /\
  store (after stop_work w) = store w /\
  ticks (after stop_work w) = ticks w /\
  exists evs,
    trace (after stop_work w)
    = trace w
      ++ Print MsgNoActiveSession
      :: Run ["systemctl"; "--user"; "stop"; SYSTEMD_SERVICE_NAME] :: evs.
Proof.
  intros Hidle. unfold result, after, stop_work.
  rewrite (bind_return _ _ _ _ _ (idle_reads_none w Hidle)).
  rewrite bind_run, print_run. rewrite bind_run.
  unfold manage_systemd_service. cbn [String.eqb Ascii.eqb Bool.eqb].
  rewrite bind_run. cbn [subprocess_run]. rewrite with_event_moved, moved_moved.
  destruct (systemctl _ _).
  - rewrite bind_run. cbn [subprocess_run]. rewrite with_event_moved, moved_moved.
    destruct (systemctl _ _);
      cbn; rewrite ?Nat.add_0_r, <- ?app_assoc; repeat (split; [reflexivity|]);
      eexists; reflexivity.
  - cbn; rewrite ?Nat.add_0_r, <- ?app_assoc; repeat (split; [reflexivity|]);
      eexists; reflexivity.
Qed.

Lemma stop_while_idle_changes_nothing_witness :
  let w := world_at sample_store (at_ymd_hms wednesday_2024_01_10 15 0 0) in
  result stop_work w = SystemExit 0 /\
  store (after stop_work w) = store w /\
  ticks (after stop_work w) = ticks w /\
  exists evs,
    trace (after stop_work w)
    = trace w
      ++ Print MsgNoActiveSession
      :: Run ["systemctl"; "--user"; "stop"; SYSTEMD_SERVICE_NAME] :: evs.
Proof.
  intros w. apply (stop_while_idle_changes_nothing w). reflexivity.
Defined.

(* ------------------------------------------------------------------ *)
(** ** The to-do list under [add] and [rm] *)

(** Everything [add_todo] does to the files and how it ends. *)
Lemma add_todo_effect (w : World) (task group : string) (deadline : option string) :
  let bad := match given deadline with
             | Some d => match strptime d with Some _ => false | None => true end
             | None => false
             end in
  if bad then
    result (add_todo task group deadline) w = SystemExit 1 /\
    store (after (add_todo task group deadline) w) = store w
  else
    result (add_todo task group deadline) w = Return tt /\
    store (after (add_todo task group deadline) w)
      = set TODOS_FILE
          (Holds (todo_list (store w) ++ [new_item task group deadline])) (store w).
Proof.
  unfold result, after, add_todo, new_item.
  rewrite bind_run, read_todos_run.
  destruct (given deadline) as [d|]; cbn [option_map].
  - destruct (strptime d) as [parsed|]; cbv beta iota zeta.
    + rewrite bind_run. unfold ret. cbv beta iota.
      rewrite bind_run. cbn [write_json_file].
      rewrite bind_run, print_run.
      match goal with
      | |- context [list_todos ?w1] =>
          destruct (then_list_todos w1) as [Hres Hstore];
          unfold result, after in Hres, Hstore;
          destruct (list_todos w1) as [r w2]
      end.
      cbn [fst snd] in *. subst r. rewrite Hstore. split; reflexivity.
    + split; reflexivity.
  - cbv beta iota zeta. rewrite bind_run. unfold ret. cbv beta iota.
    rewrite bind_run. cbn [write_json_file].
    rewrite bind_run, print_run.
    match goal with
    | |- context [list_todos ?w1] =>
        destruct (then_list_todos w1) as [Hres Hstore];
        unfold result, after in Hres, Hstore;
        destruct (list_todos w1) as [r w2]
    end.
    cbn [fst snd] in *. subst r. rewrite Hstore. split; reflexivity.
Qed.

(** Everything [remove_todo] does to the files and how it ends. *)
Lemma remove_todo_effect (w : World) (todo_id : Z) :
  let todos := todo_list (store w) in
  if (0 <? todo_id) && (todo_id <=? len todos) then
    result (remove_todo todo_id) w = Return tt /\
    store (after (remove_todo todo_id) w)
      = set TODOS_FILE
          (Holds (firstn (Z.to_nat (todo_id - 1)) todos ++ skipn (Z.to_nat todo_id) todos))
          (store w)
  else
    result (remove_todo todo_id) w = SystemExit 1 /\
    store (after (remove_todo todo_id) w) = store w.
Proof.
  intros todos. unfold result, after, remove_todo.
  rewrite bind_run, read_todos_run. fold todos.
  destruct ((0 <? todo_id) && (todo_id <=? len todos)) eqn:Hrange; cbn [negb].
  - apply andb_true_iff in Hrange. destruct Hrange as [Hlo Hhi].
    apply Z.ltb_lt in Hlo. apply Z.leb_le in Hhi.
    destruct (pop_in_range todos (todo_id - 1) ltac:(lia)) as (removed & Hnth & Hpop).
    rewrite Hpop.
    replace (S (Z.to_nat (todo_id - 1))) with (Z.to_nat todo_id) by lia.
    rewrite bind_run. cbn [write_json_file].
    rewrite bind_run, print_run.
    match goal with
    | |- context [list_todos ?w1] =>
        destruct (then_list_todos w1) as [Hres Hstore];
        unfold result, after in Hres, Hstore;
        destruct (list_todos w1) as [r w2]
    end.
    cbn [fst snd] in *. subst r. rewrite Hstore. split; reflexivity.
  - split; reflexivity.
Qed.

(** X2: when the deadline is absent, empty or a date that parses, [add]
    returns normally and the to-do file holds the old list followed by
    exactly one new item with the given task and group, carrying the
    deadline string when one was given; the work log and the session
    marker are not touched. *)
Theorem add_todo_appends_one_item
    (w : World) (task group : string) (deadline : option string) :
  (forall d, given deadline = Some d -> strptime d <> None) ->
  let w' := after (add_todo task group deadline) w in
  result (add_todo task group deadline) w = Return tt /\
  todos_json (store w')
    = Holds (todo_list (store w)
             ++ [{| task := task; group := Some group;
                    deadline := option_map JStr (given deadline) |}]) /\
  len (todo_list (store w')) = len (todo_list (store w)) + 1 /\
  work_log_json (store w') = work_log_json (store w) /\
  active_session_json (store w') = active_session_json (store w).
Proof.
  intros Hok w'. subst w'.
  pose proof (add_todo_effect w task group deadline) as H. cbv zeta in H.
  destruct (given deadline) as [d|] eqn:Eg.
  - destruct (strptime d) as [parsed|] eqn:Ep.
    + destruct H as [Hres Hstore]. rewrite Hstore. unfold new_item. rewrite Eg.
      repeat split; try assumption.
      unfold todo_list at 1. cbn [set TODOS_FILE todos_json contents].
      unfold len. rewrite length_app. cbn [List.length]. lia.
    + exfalso. now apply (Hok d).
  - destruct H as [Hres Hstore]. rewrite Hstore. unfold new_item. rewrite Eg.
    repeat split; try assumption.
    unfold todo_list at 1. cbn [set TODOS_FILE todos_json contents].
    unfold len. rewrite length_app. cbn [List.length]. lia.
Qed.

Lemma add_todo_appends_one_item_witness :
  let w := world_at sample_store (at_ymd_hms wednesday_2024_01_10 15 0 0) in
  let w' := after (add_todo "report" "Work" (Some "2024-02-29")) w in
  result (add_todo "report" "Work" (Some "2024-02-29")) w = Return tt /\
  nth_error (todo_list (store w')) 7
    = Some {| task := "report"; group := Some "Work";
              deadline := Some (JStr "2024-02-29") |}.
Proof.
  intros w w'.
  assert (Hok : forall d, given (Some "2024-02-29") = Some d -> strptime d <> None).
  { intros d [= <-]. discriminate. }
  destruct (add_todo_appends_one_item w "report" "Work" (Some "2024-02-29") Hok)
    as (Hres & Hfile & _).
  split; [exact Hres|].
  unfold todo_list, w'. rewrite Hfile. reflexivity.
Defined.

Lemma accepted_deadline (deadline : option string) :
  (forall d, given deadline = Some d -> strptime d <> None) ->
  match given deadline with
  | Some d => match strptime d with Some _ => false | None => true end
  | None => false
  end = false.
Proof.
  intros Hok. destruct (given deadline) as [d|]; [|reflexivity].
  specialize (Hok d eq_refl). destruct (strptime d); [reflexivity | contradiction].
Qed.

Lemma remove_last {A : Type} (l : list A) (x : A) :
  firstn (Z.to_nat (len (l ++ [x]) - 1)) (l ++ [x])
  ++ skipn (Z.to_nat (len (l ++ [x]))) (l ++ [x]) = l.
Proof.
  unfold len. rewrite length_app. cbn [List.length].
  replace (Z.to_nat (Z.of_nat (List.length l + 1) - 1)) with (List.length l + 0)%nat by lia.
  rewrite Nat2Z.id, firstn_app_2. cbn [firstn].
  rewrite skipn_all2 by (rewrite length_app; cbn; lia).
  now rewrite !app_nil_r.
Qed.

(** X3: an item that [add] accepted gets the last position, and [rm] of
    that position returns normally and puts back the list that was there
    before the [add]. *)
Theorem add_then_remove_restores_the_list
    (w : World) (task group : string) (deadline : option string) :
  (forall d, given deadline = Some d -> strptime d <> None) ->
  let w1 := after (add_todo task group deadline) w in
  let last := len (todo_list (store w1)) in
  let w2 := after (remove_todo last) w1 in
  last = len (todo_list (store w)) + 1 /\
  result (remove_todo last) w1 = Return tt /\
  todos_json (store w2) = Holds (todo_list (store w)) /\
  work_log_json (store w2) = work_log_json (store w) /\
  active_session_json (store w2) = active_session_json (store w).
Proof.
  intros Hok w1 last w2.
  pose proof (add_todo_effect w task group deadline) as Hadd. cbv zeta in Hadd.
  rewrite (accepted_deadline _ Hok) in Hadd. destruct Hadd as [_ Hstore1].
  fold w1 in Hstore1.
  assert (Hlist1 : todo_list (store w1)
                   = todo_list (store w) ++ [new_item task group deadline]).
  { rewrite Hstore1. reflexivity. }
  assert (Hlast : last = len (todo_list (store w)) + 1).
  { unfold last. rewrite Hlist1. unfold len. rewrite length_app. cbn [List.length]. lia. }
  pose proof (remove_todo_effect w1 last) as Hrm. cbv zeta in Hrm.
  assert (Hrange : (0 <? last) && (last <=? len (todo_list (store w1))) = true).
  { apply andb_true_iff. split; [apply Z.ltb_lt | apply Z.leb_le].
    - rewrite Hlast. unfold len. lia.
    - unfold last. lia. }
  rewrite Hrange in Hrm. destruct Hrm as [Hres Hstore2]. fold w2 in Hstore2.
  split; [exact Hlast|]. split; [exact Hres|].
  rewrite Hstore2, Hstore1. cbn [set TODOS_FILE todos_json work_log_json active_session_json].
  repeat split. f_equal. unfold last. rewrite Hlist1. apply remove_last.
Qed.

Lemma add_then_remove_restores_the_list_witness :
  let w := world_at sample_store (at_ymd_hms wednesday_2024_01_10 15 0 0) in
  let w1 := after (add_todo "report" "Work" (Some "2024-02-29")) w in
  let w2 := after (remove_todo 8) w1 in
  result (remove_todo 8) w1 = Return tt /\
  todos_json (store w2) = todos_json (store w).
Proof.
  intros w w1 w2.
  assert (Hok : forall d, given (Some "2024-02-29") = Some d -> strptime d <> None).
  { intros d [= <-]. discriminate. }
  destruct (add_then_remove_restores_the_list w "report" "Work" (Some "2024-02-29") Hok)
    as (_ & Hres & Hfile & _).
  split; [exact Hres | exact Hfile].
Defined.

Lemma Forall_remove {A : Type} (P : A -> Prop) (l : list A) (i j : nat) :
  Forall P l -> Forall P (firstn i l ++ skipn j l).
Proof.
  intros H. apply Forall_app. split.
  - rewrite <- (firstn_skipn i l) in H. now apply Forall_app in H.
  - rewrite <- (firstn_skipn j l) in H. now apply Forall_app in H.
Qed.

Lemma new_item_deadline_ok (task_text group_name : string) (due : option string) :
  (forall d, given due = Some d -> strptime d <> None) ->
  deadline_ok (new_item task_text group_name due).
Proof.
  intros Hok v. unfold new_item. cbn [deadline].
  destruct (given due) as [d|]; cbn [option_map]; [|discriminate].
  intros [= <-]. cbn [parse_deadline]. now apply Hok.
Qed.

(** X4: the to-do list stays well formed.  If every deadline on disk
    parses as a date, it still does after any [add] and after any [rm],
    whether the command succeeds or exits with an error: [add] never
    writes a deadline it could not parse. *)
Theorem todo_commands_keep_deadlines_valid (w : World) :
  deadlines_valid (todo_list (store w)) ->
  (forall task group deadline,
     deadlines_valid (todo_list (store (after (add_todo task group deadline) w)))) /\
  (forall todo_id,
     deadlines_valid (todo_list (store (after (remove_todo todo_id) w)))).
Proof.
  intros Hvalid. split.
  - intros task group deadline.
    pose proof (add_todo_effect w task group deadline) as H. cbv zeta in H.
    destruct (given deadline) as [d|] eqn:Eg.
    + destruct (strptime d) as [parsed|] eqn:Ep.
      * destruct H as [_ Hstore]. rewrite Hstore.
        apply Forall_app. split; [exact Hvalid|].
        constructor; [|constructor].
        apply new_item_deadline_ok. intros d'. rewrite Eg. intros [= <-]. congruence.
      * destruct H as [_ Hstore]. now rewrite Hstore.
    + destruct H as [_ Hstore]. rewrite Hstore.
      apply Forall_app. split; [exact Hvalid|].
      constructor; [|constructor].
      apply new_item_deadline_ok. intros d'. rewrite Eg. discriminate.
  - intros todo_id.
    pose proof (remove_todo_effect w todo_id) as H. cbv zeta in H.
    destruct ((0 <? todo_id) && (todo_id <=? len (todo_list (store w)))).
    + destruct H as [_ Hstore]. rewrite Hstore. now apply Forall_remove.
    + destruct H as [_ Hstore]. now rewrite Hstore.
Qed.

Lemma todo_commands_keep_deadlines_valid_witness :
  let w := world_at empty_store (at_ymd_hms wednesday_2024_01_10 15 0 0) in
  deadlines_valid
    (todo_list (store (after (add_todo "report" "Work" (Some "2024-02-29")) w))) /\
  deadlines_valid
    (todo_list (store (after (add_todo "report" "Work" (Some "2024-02-30")) w))).
Proof.
  intros w.
  assert (Hvalid : deadlines_valid (todo_list (store w))) by constructor.
  destruct (todo_commands_keep_deadlines_valid w Hvalid) as [Hadd _].
  split; apply Hadd.
Defined.

(* ------------------------------------------------------------------ *)
(** ** The listing *)

Lemma enumerate_from_nth (i : Z) (todos : list Todo) (k : nat) :
  nth_error (enumerate_from i todos) k
  = option_map (fun todo => (i + Z.of_nat k + 1, todo)) (nth_error todos k).
Proof.
  revert i k. induction todos as [|todo rest IH]; intros i k.
  - destruct k; reflexivity.
  - destruct k as [|k]; cbn [enumerate_from nth_error option_map].
    + do 2 f_equal. lia.
    + rewrite IH. destruct (nth_error rest k); cbn [option_map]; [|reflexivity].
      do 2 f_equal. lia.
Qed.

Lemma group_append_keys (g : string) (item : Z * Todo) grouped (g' : string) :
  In g' (map fst (group_append g item grouped)) <-> g' = g \/ In g' (map fst grouped).
Proof.
  induction grouped as [|[h items] rest IH]; cbn [group_append map fst In].
  - intuition.
  - destruct (String.eqb_spec g h) as [->|Hne]; cbn [map fst In].
    + intuition.
    + rewrite IH. intuition.
Qed.

Lemma group_append_NoDup (g : string) (item : Z * Todo) grouped :
  NoDup (map fst grouped) -> NoDup (map fst (group_append g item grouped)).
Proof.
  induction grouped as [|[h items] rest IH]; cbn [group_append map fst]; intros Hnd.
  - constructor; [intros [] | constructor].
  - inversion Hnd as [|? ? Hnotin Hrest]; subst.
    destruct (String.eqb_spec g h) as [->|Hne]; cbn [map fst].
    + constructor; assumption.
    + constructor; [|now apply IH].
      rewrite group_append_keys. intros [Heq | Hin]; [congruence | contradiction].
Qed.

Lemma group_append_items (g : string) (item : Z * Todo) grouped (g' : string) :
  group_items g' (group_append g item grouped)
  = if String.eqb g' g then group_items g' grouped ++ [item] else group_items g' grouped.
Proof.
  induction grouped as [|[h items] rest IH]; cbn [group_append group_items].
  - destruct (String.eqb g' g); reflexivity.
  - destruct (String.eqb_spec g h) as [->|Hne]; cbn [group_items].
    + destruct (String.eqb_spec g' h); reflexivity.
    + destruct (String.eqb_spec g' h) as [->|Hne'].
      * destruct (String.eqb_spec h g); [congruence | reflexivity].
      * exact IH.
Qed.

Lemma group_append_perm (g : string) (item : Z * Todo) grouped :
  Permutation (flat_map snd (group_append g item grouped)) (item :: flat_map snd grouped).
Proof.
  induction grouped as [|[h items] rest IH]; cbn [group_append flat_map snd].
  - reflexivity.
  - destruct (String.eqb g h); cbn [flat_map snd].
    + rewrite <- app_assoc. apply Permutation_sym, Permutation_middle.
    + rewrite IH. apply Permutation_sym, Permutation_middle.
Qed.

(** The state of the grouping loop after the items [seen]. *)
Lemma group_loop_invariant (items seen : list (Z * Todo)) grouped :
  NoDup (map fst grouped) ->
  (forall g, group_items g grouped = filter (in_group g) seen) ->
  (forall g, In g (map fst grouped) <-> exists item, In item seen /\ in_group g item = true) ->
  Permutation (flat_map snd grouped) seen ->
  let result :=
    fold_left (fun grouped item => group_append (group_or_general (snd item)) item grouped)
              items grouped in
  NoDup (map fst result) /\
  (forall g, group_items g result = filter (in_group g) (seen ++ items)) /\
  (forall g, In g (map fst result) <->
             exists item, In item (seen ++ items) /\ in_group g item = true) /\
  Permutation (flat_map snd result) (seen ++ items).
Proof.
  cbv zeta. revert seen grouped.
  induction items as [|item rest IH]; intros seen grouped Hnd Hit Hkeys Hperm.
  - cbn [fold_left]. rewrite app_nil_r. auto.
  - cbn [fold_left].
    replace (seen ++ item :: rest) with ((seen ++ [item]) ++ rest)
      by (rewrite <- app_assoc; reflexivity).
    apply IH.
    + now apply group_append_NoDup.
    + intros g. rewrite group_append_items, filter_app, Hit. cbn [filter].
      assert (Hsym : in_group g item = String.eqb g (group_or_general (snd item)))
        by (unfold in_group; apply String.eqb_sym).
      rewrite Hsym. destruct (String.eqb g _); [reflexivity | now rewrite app_nil_r].
    + intros g. rewrite group_append_keys, Hkeys. split.
      * intros [-> | (it & Hin & Hg)].
        -- exists item. split; [apply in_or_app; right; now left|].
           unfold in_group. apply String.eqb_refl.
        -- exists it. split; [apply in_or_app; now left | exact Hg].
      * intros (it & Hin & Hg). apply in_app_or in Hin. destruct Hin as [Hin | [<- | []]].
        -- right. now exists it.
        -- left. unfold in_group in Hg. apply String.eqb_eq in Hg. now symmetry.
    + rewrite group_append_perm, Hperm. apply Permutation_cons_append.
Qed.

Lemma insert_group_perm entry sorted :
  Permutation (insert_group entry sorted) (entry :: sorted).
Proof.
  induction sorted as [|e rest IH]; cbn [insert_group]; [reflexivity|].
  destruct (String.ltb (fst entry) (fst e)); [reflexivity|].
  rewrite IH. apply perm_swap.
Qed.

Lemma sort_groups_perm grouped acc :
  Permutation (fold_left (fun acc entry => insert_group entry acc) grouped acc)
              (acc ++ grouped).
Proof.
  revert acc. induction grouped as [|entry rest IH]; intros acc; cbn [fold_left].
  - now rewrite app_nil_r.
  - rewrite IH, insert_group_perm. apply Permutation_middle.
Qed.

Lemma ltb_leb (a b : string) : String.ltb a b = true -> String.leb a b = true.
Proof. unfold String.ltb, String.leb. destruct (String.compare a b); easy. Qed.

Lemma not_ltb_leb (a b : string) : String.ltb a b = false -> String.leb b a = true.
Proof.
  unfold String.ltb, String.leb. rewrite (String.compare_antisym b a).
  destruct (String.compare a b); easy.
Qed.

Lemma insert_group_sorted entry sorted :
  Sorted (fun a b => String.leb (fst a) (fst b) = true) sorted ->
  Sorted (fun a b => String.leb (fst a) (fst b) = true) (insert_group entry sorted).
Proof.
  induction sorted as [|e rest IH]; cbn [insert_group]; intros Hs.
  - repeat constructor.
  - destruct (String.ltb (fst entry) (fst e)) eqn:Hlt.
    + constructor; [exact Hs|]. constructor. now apply ltb_leb.
    + apply Sorted_inv in Hs. destruct Hs as [Hrest Hhd].
      constructor; [now apply IH|].
      destruct rest as [|e' rest']; cbn [insert_group].
      * constructor. now apply not_ltb_leb.
      * destruct (String.ltb (fst entry) (fst e')).
        -- constructor. now apply not_ltb_leb.
        -- constructor. now apply HdRel_inv in Hhd.
Qed.

Lemma sort_groups_sorted grouped acc :
  Sorted (fun a b => String.leb (fst a) (fst b) = true) acc ->
  Sorted (fun a b => String.leb (fst a) (fst b) = true)
         (fold_left (fun acc entry => insert_group entry acc) grouped acc).
Proof.
  revert acc. induction grouped as [|entry rest IH]; intros acc Hs; cbn [fold_left].
  - exact Hs.
  - now apply IH, insert_group_sorted.
Qed.

Lemma group_items_of_entry (g : string) items grouped :
  NoDup (map fst grouped) -> In (g, items) grouped -> group_items g grouped = items.
Proof.
  induction grouped as [|[h its] rest IH]; cbn [map fst group_items In]; intros Hnd Hin.
  - contradiction.
  - inversion Hnd as [|? ? Hnotin Hrest]; subst.
    destruct Hin as [[= -> ->] | Hin].
    + now rewrite String.eqb_refl.
    + destruct (String.eqb_spec g h) as [->|Hne]; [|now apply IH].
      exfalso. apply Hnotin. change h with (fst (h, items)). now apply in_map.
Qed.

Lemma entry_of_group_items (g : string) grouped :
  In g (map fst grouped) -> In (g, group_items g grouped) grouped.
Proof.
  induction grouped as [|[h its] rest IH]; cbn [map fst group_items In]; intros Hin.
  - contradiction.
  - destruct (String.eqb_spec g h) as [->|Hne]; [now left|].
    right. apply IH. destruct Hin as [Heq | Hin]; [congruence | exact Hin].
Qed.

(** What the grouping of the numbered items holds. *)
Lemma group_todos_spec (items : list (Z * Todo)) :
  NoDup (map fst (group_todos items)) /\
  (forall g, group_items g (group_todos items) = filter (in_group g) items) /\
  (forall g, In g (map fst (group_todos items)) <->
             exists item, In item items /\ in_group g item = true) /\
  Permutation (flat_map snd (group_todos items)) items.
Proof.
  unfold group_todos.
  apply (group_loop_invariant items [] []).
  - constructor.
  - reflexivity.
  - intros g. split; [intros [] | intros (item & [] & _)].
  - reflexivity.
Qed.

(** X6: in the listing, the groups come in ascending order of their
    name, every name once; a group holds exactly the numbered items
    whose group (["General"] when the item has none) is its name, in the
    order of the list, and no group is empty. *)
Theorem listing_groups_are_sorted_and_exact (todos : list Todo) :
  let items := enumerate_from 0 todos in
  let listing := sorted_groups (group_todos items) in
  Sorted (fun a b => String.leb (fst a) (fst b) = true) listing /\
  NoDup (map fst listing) /\
  (forall g group_lines,
     In (g, group_lines) listing <->
     group_lines <> [] /\
     group_lines
     = filter (fun item => String.eqb (group_or_general (snd item)) g) items).
Proof.
  intros items listing.
  destruct (group_todos_spec items) as (Hnd & Hitems & Hkeys & _).
  assert (Hperm : Permutation listing (group_todos items)).
  { unfold listing, sorted_groups. now rewrite sort_groups_perm. }
  split; [|split].
  - unfold listing, sorted_groups. apply sort_groups_sorted. constructor.
  - apply (Permutation_NoDup (l := map fst (group_todos items))); [|exact Hnd].
    apply Permutation_map, Permutation_sym, Hperm.
  - intros g group_lines. fold (in_group g). split.
    + intros Hin. apply (Permutation_in _ Hperm) in Hin.
      pose proof (group_items_of_entry g group_lines _ Hnd Hin) as Hgi.
      rewrite Hitems in Hgi. split; [|now symmetry].
      assert (Hkey : In g (map fst (group_todos items))).
      { change g with (fst (g, group_lines)). now apply in_map. }
      apply Hkeys in Hkey. destruct Hkey as (item & Hitem & Hg).
      intros Hnil. rewrite <- Hgi in Hnil.
      assert (Hf : In item (filter (in_group g) items)) by (apply filter_In; auto).
      rewrite Hnil in Hf. exact Hf.
    + intros [Hne ->].
      assert (Hkey : In g (map fst (group_todos items))).
      { apply Hkeys. destruct (filter (in_group g) items) as [|item rest] eqn:E;
          [contradiction|].
        assert (Hf : In item (filter (in_group g) items)) by (rewrite E; now left).
        apply filter_In in Hf. now exists item. }
      apply entry_of_group_items in Hkey. rewrite Hitems in Hkey.
      apply (Permutation_in _ (Permutation_sym Hperm)). exact Hkey.
Qed.

Lemma for_each_runs_to {A : Type} (items : list A) (body : A -> M unit)
    (render : A -> list event) (w : World) :
  (forall a w', runs_to (body a) w' 0 (render a)) ->
  runs_to (for_each items body) w 0 (flat_map render items).
Proof.
  intros Hbody. revert w. induction items as [|item rest IH]; intros w;
    cbn [for_each flat_map].
  - apply runs_to_ret.
  - apply (runs_to_bind _ _ w 0 0); [apply Hbody | apply IH].
Qed.

Lemma print_todo_line_run (item : Z * Todo) (w : World) :
  runs_to (print_todo_line item) w 0 [todo_line item].
Proof. destruct item as [id todo]. apply print_run. Qed.

Lemma print_group_run (entry : string * list (Z * Todo)) (w : World) :
  runs_to (print_group entry) w 0 (render_group entry).
Proof.
  destruct entry as [g items]. unfold print_group, render_group. cbn [fst snd].
  apply (runs_to_bind _ _ w 0 0 [_]); [apply runs_to_print|].
  apply (runs_to_bind _ _ _ 0 0 [_]); [apply runs_to_print|].
  replace (map todo_line items) with (flat_map (fun item => [todo_line item]) items)
    by (induction items as [|i r IHr]; [reflexivity | cbn; now rewrite IHr]).
  apply for_each_runs_to. intros a w'. apply print_todo_line_run.
Qed.

Lemma list_todos_run (w : World) :
  let todos := todo_list (store w) in
  runs_to list_todos w 0
    (if is_empty todos then [Print MsgTodoListEmpty]
     else flat_map render_group (sorted_groups (group_todos (enumerate_from 0 todos)))
          ++ [Print MsgBlank]).
Proof.
  intros todos. unfold runs_to, list_todos.
  rewrite bind_run, read_todos_run. fold todos.
  destruct (is_empty todos); [apply print_run|].
  apply (runs_to_bind _ _ w 0 0); [|apply runs_to_print].
  apply for_each_runs_to. intros a w'. apply print_group_run.
Qed.

(** X5: [list] numbers the items by their position, starting at 1, and
    shows each item exactly once: what it prints is the groups in turn,
    a header and an underline followed by the lines of the items, and
    the items under all the headers together are the numbered list, up
    to order.  A list that is empty, whose file is missing or whose file
    holds text that is not valid JSON prints only the hint to add an
    item.  Nothing is written. *)
Theorem list_todos_shows_every_item_once (w : World) :
  let todos := todo_list (store w) in
  let items := enumerate_from 0 todos in
  let listing := sorted_groups (group_todos items) in
  result list_todos w = Return tt /\
  store (after list_todos w) = store w /\
  trace (after list_todos w)
    = trace w ++ (if is_empty todos then [Print MsgTodoListEmpty]
                  else flat_map render_group listing ++ [Print MsgBlank]) /\
  Permutation (flat_map snd listing) items /\
  (forall k : nat,
     nth_error items k
     = option_map (fun todo => (Z.of_nat k + 1, todo)) (nth_error todos k)).
Proof.
  intros todos items listing.
  pose proof (list_todos_run w) as Hrun. cbv zeta in Hrun. unfold runs_to in Hrun.
  unfold result, after. rewrite Hrun. cbn [fst snd moved store trace].
  repeat split.
  - unfold listing, sorted_groups. rewrite sort_groups_perm. cbn [app].
    apply group_todos_spec.
  - intros k. unfold items. rewrite enumerate_from_nth. reflexivity.
Qed.

(* ------------------------------------------------------------------ *)
(** ** The weekly log *)

Lemma mk_timedelta_nonneg (us : Z) :
  0 <= us < TIMEDELTA_LIMIT -> mk_timedelta us = Some us.
Proof.
  intros [Hlo Hhi]. unfold mk_timedelta. cbv zeta.
  assert (H0 : 0 <= us / US_PER_DAY) by (apply Z.div_pos; [exact Hlo | reflexivity]).
  assert (H1 : us / US_PER_DAY < MAX_DELTA_DAYS + 1).
  { apply Z.div_lt_upper_bound; [reflexivity|]. unfold TIMEDELTA_LIMIT in Hhi. lia. }
  destruct (Z.leb_spec (- MAX_DELTA_DAYS) (us / US_PER_DAY));
    [|unfold MAX_DELTA_DAYS in *; lia].
  destruct (Z.leb_spec (us / US_PER_DAY) MAX_DELTA_DAYS); [reflexivity | lia].
Qed.

Lemma total_duration_app (a b : list (datetime * timedelta)) :
  total_duration (a ++ b) = total_duration a + total_duration b.
Proof.
  induction a as [|s a IH]; cbn [app total_duration fold_right]; [reflexivity|].
  fold (total_duration (a ++ b)). fold (total_duration a). lia.
Qed.

Lemma total_duration_nonneg (sessions : list (datetime * timedelta)) :
  Forall (fun s => 0 <= snd s) sessions -> 0 <= total_duration sessions.
Proof.
  induction 1 as [|s rest Hs _ IH]; cbn [total_duration fold_right]; [lia|].
  fold (total_duration rest). lia.
Qed.

(** The loop of [show_log] collects the entries that start in the window,
    in the order of the log, and adds up their durations; it overflows
    only past the limit of a [timedelta]. *)
Lemma week_loop_collects (s e : datetime) (log : list LogEntry)
    (weekly_total : timedelta) (week_sessions : list (datetime * timedelta)) :
  let found := map session_of (filter (in_window s e) log) in
  Forall (fun x => 0 <= snd x) found ->
  0 <= weekly_total ->
  weekly_total + total_duration found < TIMEDELTA_LIMIT ->
  week_loop s e log weekly_total week_sessions
  = Some (weekly_total + total_duration found, week_sessions ++ found).
Proof.
  cbv zeta. revert weekly_total week_sessions.
  induction log as [|entry rest IH]; intros total sessions Hpos Htotal Hlimit;
    cbn [week_loop filter map].
  - cbn [total_duration fold_right]. rewrite app_nil_r. do 2 f_equal. lia.
  - change ((s <=? start entry) && (start entry <? e)) with (in_window s e entry).
    cbn [filter map] in Hpos, Hlimit.
    destruct (in_window s e entry).
    + cbn [map] in Hpos, Hlimit |- *.
      inversion Hpos as [|? ? Hd Hrest]; subst.
      cbn [total_duration fold_right session_of snd] in Hlimit, Hd |- *.
      fold (total_duration (map session_of (filter (in_window s e) rest))) in Hlimit |- *.
      pose proof (total_duration_nonneg _ Hrest) as Hsum.
      rewrite mk_timedelta_nonneg by lia. cbn [option_bind].
      rewrite IH; [|exact Hrest|lia|lia].
      rewrite <- app_assoc. cbn [app]. do 2 f_equal. lia.
    + apply IH; assumption.
Qed.

Lemma insert_session_perm s sorted :
  Permutation (insert_session s sorted) (s :: sorted).
Proof.
  induction sorted as [|x rest IH]; cbn [insert_session]; [reflexivity|].
  match goal with |- context [if ?c then _ else _] => destruct c end; [reflexivity|].
  rewrite IH. apply perm_swap.
Qed.

Lemma sort_sessions_perm_acc sessions acc :
  Permutation (fold_left (fun acc s => insert_session s acc) sessions acc)
              (acc ++ sessions).
Proof.
  revert acc. induction sessions as [|s rest IH]; intros acc; cbn [fold_left].
  - now rewrite app_nil_r.
  - rewrite IH, insert_session_perm. apply Permutation_middle.
Qed.

Lemma insert_session_sorted s sorted :
  Sorted (fun a b => fst a <= fst b) sorted ->
  Sorted (fun a b => fst a <= fst b) (insert_session s sorted).
Proof.
  induction sorted as [|x rest IH]; cbn [insert_session]; intros Hs.
  - repeat constructor.
  - match goal with |- context [if ?c then _ else _] => destruct c eqn:E end.
    + apply Z.ltb_lt in E. constructor; [exact Hs|]. constructor.
      apply Z.lt_le_incl, E.
    + apply Z.ltb_ge in E. rename E into Hge.
      apply Sorted_inv in Hs. destruct Hs as [Hrest Hhd].
      constructor; [now apply IH|].
      destruct rest as [|x' rest']; cbn [insert_session].
      * constructor. exact Hge.
      * match goal with |- context [if ?c then _ else _] => destruct c end.
        -- constructor. exact Hge.
        -- constructor. now apply HdRel_inv in Hhd.
Qed.

Lemma sort_sessions_sorted_acc sessions acc :
  Sorted (fun a b => fst a <= fst b) acc ->
  Sorted (fun a b => fst a <= fst b)
         (fold_left (fun acc s => insert_session s acc) sessions acc).
Proof.
  revert acc. induction sessions as [|s rest IH]; intros acc Hs; cbn [fold_left].
  - exact Hs.
  - now apply IH, insert_session_sorted.
Qed.

Lemma print_session_line_run (s : datetime * timedelta) (w : World) :
  runs_to (print_session_line s) w 0 [session_line s].
Proof. destruct s as [started duration]. apply print_run. Qed.

Lemma ordered_sessions_nonneg (s e : datetime) (log : list LogEntry) :
  log_ordered log ->
  Forall (fun x => 0 <= snd x) (map session_of (filter (in_window s e) log)).
Proof.
  intros Hord. apply Forall_forall. intros x Hx.
  apply in_map_iff in Hx. destruct Hx as (entry & <- & Hin).
  apply filter_In in Hin. destruct Hin as [Hin _].
  unfold log_ordered in Hord. rewrite Forall_forall in Hord.
  specialize (Hord entry Hin). cbv beta in Hord. cbn [session_of snd]. lia.
Qed.

(** Whenever the loop of [show_log] returns, it has collected the entries
    that start in the window, in the order of the log, and added up
    their durations. *)
Lemma week_loop_some (s e : datetime) (log : list LogEntry)
    (weekly_total total : timedelta) (week_sessions sessions : list (datetime * timedelta)) :
  week_loop s e log weekly_total week_sessions = Some (total, sessions) ->
  total = weekly_total + total_duration (map session_of (filter (in_window s e) log)) /\
  sessions = week_sessions ++ map session_of (filter (in_window s e) log).
Proof.
  revert weekly_total week_sessions.
  induction log as [|entry rest IH]; intros running collected; cbn [week_loop filter map].
  - intros [= <- <-]. cbn [total_duration fold_right]. rewrite app_nil_r. split; [lia | reflexivity].
  - change ((s <=? start entry) && (start entry <? e)) with (in_window s e entry).
    destruct (in_window s e entry).
    + destruct (mk_timedelta (running + (end_ entry - start entry))) as [sum|] eqn:Esum;
        cbn [option_bind]; [|discriminate].
      apply mk_timedelta_some in Esum. subst sum. intros H. apply IH in H.
      destruct H as [-> ->]. cbn [map total_duration fold_right session_of snd].
      fold (total_duration (map session_of (filter (in_window s e) rest))).
      rewrite <- app_assoc. split; [lia | reflexivity].
    + apply IH.
Qed.

(** One run of [show_log] on a log that is not empty, when neither the
    window nor the running total overflows. *)
Lemma show_log_run (w : World) (week_offset : Z) (s e : datetime) :
  let log := work_log (store w) in
  let sessions := map session_of (filter (in_window s e) log) in
  log <> [] ->
  week_window (next_reading w) week_offset = Some (s, e) ->
  week_loop s e log 0 [] <> None ->
  runs_to (show_log week_offset) w 1 (Print (MsgWeekHeader s) :: week_report sessions).
Proof.
  intros log sessions Hne Hwin Hloop. unfold runs_to, show_log.
  rewrite bind_run, read_work_log_run. fold log.
  destruct (is_empty log) eqn:Eempty; [destruct log; [contradiction | discriminate]|].
  rewrite bind_run. cbn [datetime_now].
  change (clock w (ticks w)) with (next_reading w). rewrite Hwin.
  rewrite bind_run. cbn [checked]. unfold ret at 1. cbv beta iota.
  rewrite advance_moved, bind_run, print_run, moved_moved.
  rewrite bind_run.
  destruct (week_loop s e log 0 []) as [[total found]|] eqn:Eloop; [|contradiction].
  apply week_loop_some in Eloop. fold sessions in Eloop. destruct Eloop as [-> ->].
  cbn [checked app]. unfold ret at 1. cbv beta iota.
  replace (0 + total_duration sessions) with (total_duration sessions) by lia.
  unfold week_report.
  destruct (is_empty sessions).
  - rewrite print_run, moved_moved. reflexivity.
  - rewrite bind_run.
    replace (map session_line (sort_sessions sessions))
      with (flat_map (fun x => [session_line x]) (sort_sessions sessions))
      by (induction (sort_sessions sessions) as [|i r IHr];
          [reflexivity | cbn; now rewrite IHr]).
    rewrite (for_each_runs_to _ _ (fun x => [session_line x]))
      by (intros a w'; apply print_session_line_run).
    rewrite moved_moved.
    rewrite bind_run, print_run, moved_moved.
    rewrite bind_run, print_run, moved_moved.
    rewrite print_run, moved_moved.
    cbn [Nat.add]. rewrite <- !app_assoc. reflexivity.
Qed.

(** X7: on a log that is not empty, when neither the week window nor
    the running weekly total overflows, [show_log] prints the header of
    the week and then one line per entry whose start lies in the window
    (start inclusive, end exclusive), sorted by start, each with the
    duration end minus start, followed by the total of these durations;
    with no such entry it prints that no session was recorded. *)
Theorem show_log_reports_the_week (w : World) (week_offset : Z) (s e : datetime) :
  let log := work_log (store w) in
  let sessions := map session_of (filter (in_window s e) log) in
  log <> [] ->
  week_window (next_reading w) week_offset = Some (s, e) ->
  week_loop s e log 0 [] <> None ->
  result (show_log week_offset) w = Return tt /\
  trace (after (show_log week_offset) w)
    = trace w ++ Print (MsgWeekHeader s) :: week_report sessions /\
  Permutation (sort_sessions sessions) sessions /\
  Sorted (fun a b => fst a <= fst b) (sort_sessions sessions) /\
  (forall started duration,
     In (started, duration) sessions <->
     exists entry, In entry log /\ s <= start entry < e /\
                   started = start entry /\ duration = end_ entry - start entry).
Proof.
  intros log sessions Hne Hwin Hloop.
  pose proof (show_log_run w week_offset s e Hne Hwin Hloop) as Hrun.
  unfold runs_to in Hrun. unfold result, after. rewrite Hrun. cbn [fst snd moved trace].
  split; [reflexivity|]. split; [reflexivity|].
  split; [unfold sort_sessions; now rewrite sort_sessions_perm_acc|].
  split; [unfold sort_sessions; apply sort_sessions_sorted_acc; constructor|].
  intros started duration. unfold sessions. rewrite in_map_iff. split.
  - intros (entry & [= <- <-] & Hin). apply filter_In in Hin. destruct Hin as [Hin Hw].
    unfold in_window in Hw. apply andb_true_iff in Hw. destruct Hw as [H1 H2].
    apply Z.leb_le in H1. apply Z.ltb_lt in H2.
    exists entry. repeat split; assumption.
  - intros (entry & Hin & [H1 H2] & -> & ->). exists entry. split; [reflexivity|].
    apply filter_In. split; [exact Hin|]. unfold in_window.
    apply andb_true_iff. split; [now apply Z.leb_le | now apply Z.ltb_lt].
Qed.

Lemma show_log_reports_the_week_witness :
  let backwards := {| start := at_ymd_hms monday_2024_01_08 12 0 0;
                      end_ := at_ymd_hms monday_2024_01_08 11 0 0 |} in
  let w := world_at {| work_log_json := Holds [backwards; old_entry; recent_entry];
                       todos_json := Missing; active_session_json := Missing |}
                    (at_ymd_hms wednesday_2024_01_10 15 0 0) in
  trace (after (show_log (-1)) w)
  = [ Print (MsgWeekHeader (at_ymd_hms (monday_2024_01_08 - 7) 15 0 0));
      Print (MsgSessionLine (at_ymd_hms monday_2024_01_08 9 0 0) US_PER_HOUR);
      Print (MsgSessionLine (at_ymd_hms monday_2024_01_08 12 0 0) (- US_PER_HOUR));
      Print MsgRule; Print (MsgWeeklyTotal 0); Print MsgRule ].
Proof.
  intros backwards w.
  assert (Hne : work_log (store w) <> []) by discriminate.
  assert (Hwin : week_window (next_reading w) (-1)
                 = Some (at_ymd_hms (monday_2024_01_08 - 7) 15 0 0,
                         at_ymd_hms monday_2024_01_08 15 0 0)) by reflexivity.
  assert (Hloop : week_loop (at_ymd_hms (monday_2024_01_08 - 7) 15 0 0)
                            (at_ymd_hms monday_2024_01_08 15 0 0)
                            (work_log (store w)) 0 [] <> None) by discriminate.
  destruct (show_log_reports_the_week w (-1) _ _ Hne Hwin Hloop) as (_ & Htrace & _).
  etransitivity; [exact Htrace|]. reflexivity.
Defined.

(* ------------------------------------------------------------------ *)
(** ** Pruning: messages, silence and overflow *)

(** What one run of [prune_old_logs] prints. *)
Lemma prune_old_logs_trace (w : World) (months_to_keep : Z) (silent : bool) :
  let l := work_log (store w) in
  trace (after (prune_old_logs months_to_keep silent) w)
  = trace w
    ++ (if silent then []
        else match l with
             | [] => [Print MsgNothingToPrune]
             | _ :: _ =>
                 match prune_cutoff (next_reading w) months_to_keep with
                 | None => []
                 | Some cutoff =>
                     let pruned_count := len l - len (filter (kept cutoff) l) in
                     if 0 <? pruned_count
                     then [Print (MsgPruned pruned_count months_to_keep)]
                     else [Print MsgNoOldEntries]
                 end
             end).
Proof.
  intros l. unfold after, prune_old_logs.
  rewrite bind_run, read_work_log_run. fold l.
  destruct l as [|entry rest] eqn:El; cbn [is_empty].
  - destruct silent; cbn; now rewrite ?app_nil_r.
  - unfold prune_cutoff, next_reading. run_monad.
    destruct (timedelta_months months_to_keep) as [delta|]; run_monad;
      [|destruct silent; cbn; now rewrite ?app_nil_r].
    destruct (datetime_sub (clock w (ticks w)) delta) as [cutoff|]; run_monad;
      [|destruct silent; cbn; now rewrite ?app_nil_r].
    fold (kept cutoff).
    destruct (0 <? len (entry :: rest) - len (filter (kept cutoff) (entry :: rest)));
      destruct silent; cbn; now rewrite ?app_nil_r.
Qed.

Lemma reads_as_empty (s : Store) :
  work_log s = [] <->
  work_log_json s = Missing \/ (exists text, work_log_json s = InvalidJson text) \/
  work_log_json s = Holds [].
Proof.
  unfold work_log, contents. destruct (work_log_json s) as [|text|l].
  - split; [now left | reflexivity].
  - split; [right; left; now exists text | reflexivity].
  - split.
    + intros ->. now right; right.
    + intros [H | [(text & H) | H]]; try discriminate. now injection H.
Qed.

(** X8: when the work log reads as empty, that is when its file is
    missing, holds text that is not valid JSON, or holds the empty list,
    [log show] and [log prune] only print their empty-log message and
    return: no file is written, the clock is not read, and neither the
    offset nor the number of months can make them overflow. *)
Theorem empty_log_is_only_reported (w : World) (week_offset months_to_keep : Z) :
  work_log (store w) = [] ->
  (result (show_log week_offset) w = Return tt /\
   store (after (show_log week_offset) w) = store w /\
   ticks (after (show_log week_offset) w) = ticks w /\
   trace (after (show_log week_offset) w) = trace w ++ [Print MsgLogEmpty]) /\
  (result (prune_old_logs months_to_keep false) w = Return tt /\
   store (after (prune_old_logs months_to_keep false) w) = store w /\
   ticks (after (prune_old_logs months_to_keep false) w) = ticks w /\
   trace (after (prune_old_logs months_to_keep false) w)
     = trace w ++ [Print MsgNothingToPrune]).
Proof.
  intros Hempty. split.
  - unfold result, after, show_log.
    rewrite bind_run, read_work_log_run, Hempty. cbn [is_empty].
    repeat split.
  - pose proof (prune_old_logs_effect w months_to_keep false) as H.
    pose proof (prune_old_logs_trace w months_to_keep false) as Ht.
    cbv zeta in H, Ht. rewrite Hempty in H, Ht.
    destruct H as (_ & Hres & Hstore & Hticks). auto.
Qed.

Lemma empty_log_is_only_reported_witness :
  let w := world_at empty_store (at_ymd_hms wednesday_2024_01_10 15 0 0) in
  result (show_log (10 ^ 12)) w = Return tt /\
  result (prune_old_logs (10 ^ 12) false) w = Return tt.
Proof.
  intros w.
  destruct (empty_log_is_only_reported w (10 ^ 12) (10 ^ 12) eq_refl)
    as [(Hshow & _) (Hprune & _)].
  split; assumption.
Defined.

(** X9: the [silent] flag of [prune_old_logs] only silences it.  With
    and without it the run ends the same way and leaves the same files;
    the silent run prints nothing, and when the other run reports pruned
    entries the number it gives is the number of entries the log lost. *)
Theorem prune_silent_only_silences (w : World) (months_to_keep : Z) :
  let loud := after (prune_old_logs months_to_keep false) w in
  let quiet := after (prune_old_logs months_to_keep true) w in
  result (prune_old_logs months_to_keep true) w
    = result (prune_old_logs months_to_keep false) w /\
  store quiet = store loud /\
  trace quiet = trace w /\
  (forall n m, In (Print (MsgPruned n m)) (skipn (List.length (trace w)) (trace loud)) ->
     m = months_to_keep /\ 0 < n /\
     n = len (work_log (store w)) - len (work_log (store loud))).
Proof.
  intros loud quiet.
  pose proof (prune_old_logs_effect w months_to_keep false) as Hl.
  pose proof (prune_old_logs_effect w months_to_keep true) as Hq.
  pose proof (prune_old_logs_trace w months_to_keep false) as Htl.
  pose proof (prune_old_logs_trace w months_to_keep true) as Htq.
  cbv zeta in Hl, Hq, Htl, Htq. fold loud in Hl, Htl. fold quiet in Hq, Htq.
  destruct Hl as [_ Hl]. destruct Hq as [_ Hq].
  cbn [app] in Htq. rewrite app_nil_r in Htq.
  assert (Hskip : forall evs, skipn (List.length (trace w)) (trace w ++ evs) = evs).
  { intros evs. rewrite skipn_app, skipn_all, Nat.sub_diag. reflexivity. }
  rewrite Htl, Hskip.
  destruct (work_log (store w)) as [|entry rest] eqn:El.
  - destruct Hl as (Hres1 & Hs1 & _). destruct Hq as (Hres2 & Hs2 & _).
    repeat split; try congruence;
      destruct H as [H | []]; discriminate H.
  - destruct Hl as (_ & Hl). destruct Hq as (_ & Hq).
    destruct (prune_cutoff (next_reading w) months_to_keep) as [cutoff|].
    + destruct Hl as [Hres1 Hs1]. destruct Hq as [Hres2 Hs2].
      split; [congruence|]. split; [congruence|]. split; [exact Htq|].
      intros n m Hin.
      assert (Hlog : work_log (store loud) = filter (kept cutoff) (entry :: rest)).
      { rewrite Hs1, <- El. apply pruned_store_log. }
      rewrite Hlog.
      destruct (Z.ltb_spec 0 (len (entry :: rest) - len (filter (kept cutoff) (entry :: rest))))
        as [Hpos|Hzero].
      * destruct Hin as [[= <- <-] | []]. repeat split. exact Hpos.
      * destruct Hin as [Hin | []]. discriminate Hin.
    + destruct Hl as [Hres1 Hs1]. destruct Hq as [Hres2 Hs2].
      repeat split; try congruence; destruct H.
Qed.

(** X10: when the log is not empty and the cutoff [now - m * 30.5 days]
    falls off the calendar, [prune] raises [OverflowError]: it reads the
    clock once, writes nothing and prints nothing. *)
Theorem prune_overflow_leaves_the_log (w : World) (months_to_keep : Z) (silent : bool) :
  work_log (store w) <> [] ->
  ~ valid_datetime (next_reading w - months_to_keep * MONTH_US) ->
  result (prune_old_logs months_to_keep silent) w = Raised OverflowError /\
  store (after (prune_old_logs months_to_keep silent) w) = store w /\
  trace (after (prune_old_logs months_to_keep silent) w) = trace w /\
  ticks (after (prune_old_logs months_to_keep silent) w) = S (ticks w).
Proof.
  intros Hne Hoff.
  pose proof (prune_old_logs_effect w months_to_keep silent) as H.
  pose proof (prune_old_logs_trace w months_to_keep silent) as Ht.
  cbv zeta in H, Ht.
  destruct (work_log (store w)) as [|entry rest]; [contradiction|].
  destruct (prune_cutoff (next_reading w) months_to_keep) as [cutoff|] eqn:Ecut.
  - apply prune_cutoff_some in Ecut. destruct Ecut as [-> Hvalid]. contradiction.
  - destruct H as (_ & Hticks & Hres & Hstore).
    repeat split; try assumption.
    rewrite Ht. destruct silent; apply app_nil_r.
Qed.

Lemma prune_overflow_leaves_the_log_witness :
  let w := world_at sample_store (at_ymd_hms wednesday_2024_01_10 15 0 0) in
  result (prune_old_logs 100000 false) w = Raised OverflowError /\
  store (after (prune_old_logs 100000 false) w) = store w.
Proof.
  intros w.
  assert (Hne : work_log (store w) <> []) by discriminate.
  assert (Hoff : ~ valid_datetime (next_reading w - 100000 * MONTH_US)).
  { vm_compute. intros [H _]. now apply H. }
  destruct (prune_overflow_leaves_the_log w 100000 false Hne Hoff) as (Hres & Hstore & _).
  split; assumption.
Defined.

(* ------------------------------------------------------------------ *)
(** ** The order of start and end in the work log *)

(** [stop] while Active is the append of the entry, the removal of the
    marker, and then the automatic pruning. *)
Lemma stop_work_then_prune (w : World) (session : Session) :
  active_session_json (store w) = Holds session ->
  exists wp,
    stop_work w = prune_old_logs DEFAULT_MONTHS_TO_KEEP true wp /\
    store wp
      = set ACTIVE_SESSION_FILE Missing
          (set WORK_LOG_FILE
             (Holds (work_log (store w)
                     ++ [{| start := start_time session; end_ := next_reading w |}]))
             (store w)) /\
    clock wp = clock w /\
    ticks wp = S (ticks w).
Proof.
  intros Hactive. unfold stop_work.
  rewrite bind_run. unfold get_active_session. cbn [get ACTIVE_SESSION_FILE].
  rewrite Hactive. cbv beta iota.
  rewrite bind_run. cbn [datetime_now].
  rewrite (bind_return _ _ _ _ _ (read_work_log_run _)).
  rewrite bind_run. cbn [write_json_file].
  rewrite bind_run. unfold os_remove.
  cbn [get set ACTIVE_SESSION_FILE WORK_LOG_FILE store with_store advance
       active_session_json].
  rewrite Hactive. cbv beta iota.
  rewrite bind_run.
  match goal with
  | |- context [manage_systemd_service ?a ?w0] =>
      destruct (manage_systemd_service_run a w0) as [evs Hsd]
  end.
  unfold runs_to in Hsd. rewrite Hsd.
  rewrite bind_run, print_run, moved_moved.
  rewrite bind_run, print_run, moved_moved.
  eexists. split; [reflexivity|]. cbn. repeat split. lia.
Qed.

Lemma prune_log_cases (w : World) (months_to_keep : Z) (silent : bool) :
  work_log (store (after (prune_old_logs months_to_keep silent) w)) = work_log (store w) \/
  exists cutoff,
    work_log (store (after (prune_old_logs months_to_keep silent) w))
    = filter (kept cutoff) (work_log (store w)).
Proof.
  pose proof (prune_old_logs_effect w months_to_keep silent) as H. cbv zeta in H.
  destruct H as [_ H].
  destruct (work_log (store w)) as [|entry rest] eqn:El.
  - left. destruct H as (_ & Hs & _). now rewrite Hs.
  - destruct H as (_ & H).
    destruct (prune_cutoff (next_reading w) months_to_keep) as [cutoff|].
    + right. exists cutoff. destruct H as [_ Hs]. rewrite Hs, <- El.
      apply pruned_store_log.
    + left. destruct H as [_ Hs]. now rewrite Hs.
Qed.

Lemma log_ordered_filter (f : LogEntry -> bool) (log : list LogEntry) :
  log_ordered log -> log_ordered (filter f log).
Proof.
  unfold log_ordered. rewrite !Forall_forall. intros H entry Hin.
  apply filter_In in Hin. now apply H.
Qed.

(** X11: the work log keeps the order of start and end.  If every entry
    on disk ends no earlier than it starts, this still holds after any
    [prune], and after [stop] provided the clock has not gone back below
    the start recorded in the marker. *)
Theorem sessions_stay_ordered (w : World) :
  log_ordered (work_log (store w)) ->
  (forall months_to_keep silent,
     log_ordered (work_log (store (after (prune_old_logs months_to_keep silent) w)))) /\
  (forall session,
     active_session_json (store w) = Holds session ->
     start_time session <= next_reading w ->
     log_ordered (work_log (store (after stop_work w)))).
Proof.
  intros Hord. split.
  - intros m silent.
    destruct (prune_log_cases w m silent) as [-> | (cutoff & ->)];
      [exact Hord | now apply log_ordered_filter].
  - intros session Hactive Hclock.
    destruct (stop_work_then_prune w session Hactive) as (wp & Hrun & Hstore & _).
    unfold after. rewrite Hrun. fold (after (prune_old_logs DEFAULT_MONTHS_TO_KEEP true) wp).
    assert (Hwp : log_ordered (work_log (store wp))).
    { rewrite Hstore. cbn [set ACTIVE_SESSION_FILE WORK_LOG_FILE work_log work_log_json contents].
      apply Forall_app. split; [exact Hord|]. constructor; [exact Hclock | constructor]. }
    destruct (prune_log_cases wp DEFAULT_MONTHS_TO_KEEP true) as [-> | (cutoff & ->)];
      [exact Hwp | now apply log_ordered_filter].
Qed.

Lemma sessions_stay_ordered_witness :
  let now := at_ymd_hms wednesday_2024_01_10 15 0 0 in
  let w := world_at {| work_log_json := Holds [old_entry; recent_entry];
                       todos_json := Missing;
                       active_session_json :=
                         Holds {| start_time := at_ymd_hms wednesday_2024_01_10 9 0 0 |} |}
                    now in
  log_ordered (work_log (store (after stop_work w))).
Proof.
  intros now w.
  assert (Hord : log_ordered (work_log (store w))).
  { repeat constructor; vm_compute; discriminate. }
  destruct (sessions_stay_ordered w Hord) as [_ Hstop].
  apply (Hstop {| start_time := at_ymd_hms wednesday_2024_01_10 9 0 0 |}).
  - reflexivity.
  - vm_compute. discriminate.
Defined.

(* ------------------------------------------------------------------ *)
(** ** Which files a command can write *)

Lemma keeps_read_only {A B : Type} (f : Store -> B) (m : M A) :
  read_only m -> keeps f m.
Proof. intros H w. now rewrite H. Qed.

Lemma keeps_bind {A B C : Type} (f : Store -> C) (m : M A) (k : A -> M B) :
  keeps f m -> (forall a, keeps f (k a)) -> keeps f (bind m k).
Proof.
  intros Hm Hk w. unfold after. rewrite bind_run.
  specialize (Hm w). unfold after in Hm.
  destruct (m w) as [[a|c|e] w']; cbn in *; try exact Hm.
  rewrite <- Hm. apply Hk.
Qed.

Lemma keeps_when {B : Type} (f : Store -> B) (c : bool) (m : M unit) :
  keeps f m -> keeps f (when c m).
Proof. intros H. destruct c; [exact H | intros w; reflexivity]. Qed.

#[global] Hint Resolve read_only_check_deadlines read_only_manage_systemd_service
  read_only_list_todos : frame.

(** Splits a command into its steps; a step that writes must write
    another file than the one looked at. *)
Ltac keeps_steps :=
  repeat first
    [ solve [apply keeps_read_only; auto with frame]
    | solve [intros ?; reflexivity]
    | apply keeps_bind; [| intros ?]
    | apply keeps_when
    | match goal with
      | |- keeps _ (if ?c then _ else _) => destruct c
      | |- keeps _ (match ?x with _ => _ end) => destruct x
      end ].

Lemma keeps_os_remove_marker {B : Type} (f : Store -> B) :
  (forall s, f (set ACTIVE_SESSION_FILE Missing s) = f s) ->
  keeps f (os_remove ACTIVE_SESSION_FILE).
Proof.
  intros Hf w. unfold after, os_remove.
  destruct (get ACTIVE_SESSION_FILE (store w)); cbn [snd store with_store];
    [reflexivity | apply Hf | apply Hf].
Qed.

(** X12: whatever the state and however the command ends, [start] can
    write only the session marker, [stop] only the marker and the work
    log, [prune] only the work log, and [add] and [rm] only the to-do
    list. *)
Theorem commands_write_only_their_files :
  (keeps work_log_json start_work /\ keeps todos_json start_work) /\
  keeps todos_json stop_work /\
  (forall months_to_keep silent,
     keeps todos_json (prune_old_logs months_to_keep silent) /\
     keeps active_session_json (prune_old_logs months_to_keep silent)) /\
  (forall task group deadline,
     keeps work_log_json (add_todo task group deadline) /\
     keeps active_session_json (add_todo task group deadline)) /\
  (forall todo_id,
     keeps work_log_json (remove_todo todo_id) /\
     keeps active_session_json (remove_todo todo_id)).
Proof.
  assert (Hprune : forall m s, keeps todos_json (prune_old_logs m s) /\
                               keeps active_session_json (prune_old_logs m s)).
  { intros m s. split; unfold prune_old_logs; keeps_steps. }
  split; [split; unfold start_work; keeps_steps|].
  split.
  { unfold stop_work.
    apply keeps_bind; [keeps_steps | intros [session|]]; [|keeps_steps].
    apply keeps_bind; [keeps_steps | intros end_time].
    apply keeps_bind; [keeps_steps | intros log].
    apply keeps_bind; [keeps_steps | intros _].
    apply keeps_bind; [apply keeps_os_remove_marker; reflexivity | intros _].
    apply keeps_bind; [keeps_steps | intros _].
    apply keeps_bind; [keeps_steps | intros _].
    apply keeps_bind; [keeps_steps | intros _].
    apply Hprune. }
  split; [exact Hprune|].
  split.
  - intros task group deadline. split; unfold add_todo; keeps_steps.
  - intros todo_id. split; unfold remove_todo; keeps_steps.
Qed.

(* ------------------------------------------------------------------ *)
(** ** How a command can end *)

Lemma tame_bind {A B : Type} (m : M A) (k : A -> M B) :
  tame m -> (forall a, tame (k a)) -> tame (bind m k).
Proof.
  intros Hm Hk w. unfold result. rewrite bind_run.
  specialize (Hm w). unfold result in Hm.
  destruct (m w) as [[a|c|e] w']; cbn [fst] in *; try exact Hm.
  apply Hk.
Qed.

Lemma tame_never_fails {A : Type} (m : M A) : never_fails m -> tame m.
Proof. intros H w. destruct (H w) as [a ->]. exact I. Qed.

Lemma tame_ret {A : Type} (a : A) : tame (ret a).
Proof. intros w. exact I. Qed.

Lemma tame_print (m : message) : tame (print m).
Proof. intros w. exact I. Qed.

Lemma tame_datetime_now : tame datetime_now.
Proof. intros w. exact I. Qed.

Lemma tame_date_today : tame date_today.
Proof. intros w. exact I. Qed.

Lemma tame_checked {A : Type} (o : option A) : tame (checked o).
Proof. intros w. destruct o; cbn; [exact I | reflexivity]. Qed.

Lemma tame_read_json_file {A : Type} (p : path A) (d : A) : tame (read_json_file p d).
Proof. apply tame_never_fails, never_fails_read_json_file. Qed.

Lemma tame_write_json_file {A : Type} (p : path A) (d : A) : tame (write_json_file p d).
Proof. intros w. exact I. Qed.

Lemma tame_when (c : bool) (m : M unit) : tame m -> tame (when c m).
Proof. intros H. destruct c; [exact H | apply tame_ret]. Qed.

Lemma tame_for_each {A : Type} (items : list A) (body : A -> M unit) :
  (forall a, tame (body a)) -> tame (for_each items body).
Proof.
  intros Hbody. induction items as [|item rest IH]; cbn [for_each].
  - apply tame_ret.
  - apply tame_bind; [apply Hbody | intros _; exact IH].
Qed.

Create HintDb tame.
#[global] Hint Resolve tame_ret tame_print tame_datetime_now tame_date_today
  tame_checked tame_read_json_file tame_write_json_file : tame.

Ltac tame_steps :=
  repeat first
    [ solve [auto with tame]
    | apply tame_bind; [| intros ?]
    | apply tame_when
    | apply tame_for_each; intros ?
    | match goal with
      | |- tame (if ?c then _ else _) => destruct c
      | |- tame (match ?x with _ => _ end) => destruct x
      | |- tame (let (_, _) := ?x in _) => destruct x
      end ].

Lemma tame_manage_systemd_service (action : string) : tame (manage_systemd_service action).
Proof.
  intros w. destruct (manage_systemd_service_run action w) as [evs H].
  unfold runs_to in H. unfold result. now rewrite H.
Qed.

Lemma tame_list_todos : tame list_todos.
Proof. apply tame_never_fails, never_fails_list_todos. Qed.

Lemma tame_prune_old_logs (months_to_keep : Z) (silent : bool) :
  tame (prune_old_logs months_to_keep silent).
Proof. unfold prune_old_logs. tame_steps. Qed.

Lemma tame_show_log (week_offset : Z) : tame (show_log week_offset).
Proof. unfold show_log, print_session_line. tame_steps. Qed.

Lemma date_add_none (d n : Z) :
  ~ valid_date (d + n) -> date_add d (n * US_PER_DAY) = None.
Proof.
  unfold valid_date, date_add. intros H. cbv zeta.
  rewrite Z.div_mul by discriminate.
  destruct (Z.leb_spec 1 (d + n)); [|reflexivity].
  destruct (Z.leb_spec (d + n) MAXORDINAL); [|reflexivity].
  exfalso. apply H. lia.
Qed.

(** The deadline check returns, or overflows on the day after tomorrow;
    the lines it prints never miss their deadline. *)
Lemma tame_check_deadlines : tame check_deadlines.
Proof.
  intros w.
  destruct (Z.leb_spec 1 (date_of (next_reading w) + 2)) as [Hlo|Hlo];
    [destruct (Z.leb_spec (date_of (next_reading w) + 2) MAXORDINAL) as [Hhi|Hhi]|].
  - pose proof (check_deadlines_run w (conj Hlo Hhi)) as H.
    unfold runs_to in H. unfold result. now rewrite H.
  - unfold result, check_deadlines. rewrite bind_run, read_todos_run.
    destruct (existsb _ _); cbn [negb]; [|exact I].
    rewrite bind_run. cbn [date_today]. rewrite bind_run.
    change (timedelta_days 2) with (Some (2 * US_PER_DAY)). cbn [checked].
    unfold ret at 1. cbv beta iota. rewrite bind_run.
    change (clock w (ticks w)) with (next_reading w).
    rewrite date_add_none by (unfold valid_date; lia). reflexivity.
  - unfold result, check_deadlines. rewrite bind_run, read_todos_run.
    destruct (existsb _ _); cbn [negb]; [|exact I].
    rewrite bind_run. cbn [date_today]. rewrite bind_run.
    change (timedelta_days 2) with (Some (2 * US_PER_DAY)). cbn [checked].
    unfold ret at 1. cbv beta iota. rewrite bind_run.
    change (clock w (ticks w)) with (next_reading w).
    rewrite date_add_none by (unfold valid_date; lia). reflexivity.
Qed.

Lemma never_fails_show_status : never_fails show_status.
Proof.
  intros w. unfold result, show_status.
  rewrite bind_run. unfold get_active_session.
  destruct (get ACTIVE_SESSION_FILE (store w)); eexists; reflexivity.
Qed.

Lemma start_work_outcome (w : World) :
  if active (store w) then result start_work w = SystemExit 1
  else match result start_work w with
       | Return _ => True
       | SystemExit _ => False
       | Raised e => e = OverflowError
       end.
Proof.
  destruct (active (store w)) eqn:Hact.
  - unfold active in Hact. unfold result, start_work.
    rewrite bind_run. unfold get_active_session. cbn [get ACTIVE_SESSION_FILE].
    destruct (active_session_json (store w)); [discriminate | discriminate | reflexivity].
  - unfold result, start_work.
    rewrite (bind_return _ _ _ _ _ (idle_reads_none w Hact)).
    pose proof tame_check_deadlines. pose proof tame_manage_systemd_service.
    match goal with
    | |- match fst (?m w) with _ => _ end => assert (Ht : tame m) by tame_steps
    end.
    apply Ht.
Qed.

Lemma stop_work_outcome (w : World) :
  if active (store w) then
    match result stop_work w with
    | Return _ => True
    | SystemExit _ => False
    | Raised e => e = OverflowError
    end
  else result stop_work w = SystemExit 0.
Proof.
  destruct (active (store w)) eqn:Hact.
  - unfold active in Hact.
    destruct (active_session_json (store w)) as [| |session] eqn:E; try discriminate.
    destruct (stop_work_then_prune w session E) as (wp & Hrun & _).
    unfold result. rewrite Hrun. apply tame_prune_old_logs.
  - unfold result, stop_work.
    rewrite (bind_return _ _ _ _ _ (idle_reads_none w Hact)).
    rewrite bind_run, print_run, bind_run.
    destruct (manage_systemd_service_run "stop" (moved w 0 [Print MsgNoActiveSession]))
      as [evs H].
    unfold runs_to in H. rewrite H. reflexivity.
Qed.

Lemma main_runs_command (args : command) (w : World) :
  main args w
  = match args with
    | CmdStart => start_work w
    | CmdStop => stop_work w
    | CmdStatus => show_status w
    | CmdLogShow week => show_log (if String.eqb week "current" then 0 else -1) w
    | CmdLogPrune months => prune_old_logs months false w
    | CmdTodoList => list_todos w
    | CmdTodoCheck => check_deadlines w
    | CmdTodoAdd task group deadline => add_todo task group deadline w
    | CmdTodoRm id => remove_todo id w
    end.
Proof. destruct args; reflexivity. Qed.

(** X13: the only ways a command ends.  Exit status 1 comes only from
    [start] while a session is active, from [todo add] with a non-empty
    deadline that does not parse, and from [todo rm] with a position
    outside the list; exit status 0 through [sys.exit] only from [stop]
    while Idle; and the only exception is [OverflowError], which
    [status], [todo list], [todo add] and [todo rm] never raise. *)
Theorem main_ends_only_these_ways (args : command) (w : World) :
  match result (main args) w with
  | Return _ => True
  | SystemExit code =>
      (code = 1 /\
       ((args = CmdStart /\ active (store w) = true) \/
        (exists task group d,
           args = CmdTodoAdd task group (Some d) /\ d <> "" /\ strptime d = None) \/
        (exists id,
           args = CmdTodoRm id /\ ~ (1 <= id <= len (todo_list (store w)))))) \/
      (code = 0 /\ args = CmdStop /\ active (store w) = false)
  | Raised e =>
      e = OverflowError /\
      match args with
      | CmdStatus | CmdTodoList | CmdTodoAdd _ _ _ | CmdTodoRm _ => False
      | _ => True
      end
  end.
Proof.
  unfold result. rewrite main_runs_command. destruct args as [| | |week|months| | |task group deadline|id].
  - pose proof (start_work_outcome w) as H. unfold result in H.
    destruct (active (store w)) eqn:Hact.
    + rewrite H. left. split; [reflexivity|]. left. now split.
    + destruct (fst (start_work w)); [exact I | contradiction | now split].
  - pose proof (stop_work_outcome w) as H. unfold result in H.
    destruct (active (store w)) eqn:Hact.
    + destruct (fst (stop_work w)); [exact I | contradiction | now split].
    + rewrite H. right. repeat split.
  - destruct (never_fails_show_status w) as [a H]. unfold result in H. now rewrite H.
  - pose proof (tame_show_log (if String.eqb week "current" then 0 else -1) w) as H.
    unfold result in H.
    destruct (fst (show_log _ w)); [exact I | contradiction | now split].
  - pose proof (tame_prune_old_logs months false w) as H. unfold result in H.
    destruct (fst (prune_old_logs months false w)); [exact I | contradiction | now split].
  - destruct (never_fails_list_todos w) as [a H]. unfold result in H. now rewrite H.
  - pose proof (tame_check_deadlines w) as H. unfold result in H.
    destruct (fst (check_deadlines w)); [exact I | contradiction | now split].
  - pose proof (add_todo_effect w task group deadline) as H. cbv zeta in H.
    unfold result in H.
    destruct (given deadline) as [d|] eqn:Eg.
    + destruct (strptime d) as [parsed|] eqn:Ep.
      * destruct H as [-> _]. exact I.
      * destruct H as [-> _]. left. split; [reflexivity|]. right. left.
        unfold given in Eg. destruct deadline as [d'|]; [|discriminate].
        destruct (String.eqb_spec d' ""); [discriminate|].
        injection Eg as ->. exists task, group, d. repeat split; assumption.
    + destruct H as [-> _]. exact I.
  - pose proof (remove_todo_effect w id) as H. cbv zeta in H. unfold result in H.
    destruct ((0 <? id) && (id <=? len (todo_list (store w)))) eqn:Hrange.
    + destruct H as [-> _]. exact I.
    + destruct H as [-> _]. left. split; [reflexivity|]. right. right.
      exists id. split; [reflexivity|]. intros [Hlo Hhi].
      apply andb_false_iff in Hrange. destruct Hrange as [Hr|Hr].
      * apply Z.ltb_ge in Hr. lia.
      * apply Z.leb_gt in Hr. lia.
Qed.

(* ------------------------------------------------------------------ *)
(** ** The service manager *)

(** X14: a failing [systemctl] never aborts the command.  For every
    action [manage_systemd_service] returns normally and touches neither
    the files nor the clock; it prints its warning exactly when one of
    the [systemctl] calls it made failed, and on ["stop"] it attempts the
    [disable] only after the [stop] call succeeded. *)
Theorem systemd_failure_only_warns (action : string) (w : World) :
  let w' := after (manage_systemd_service action) w in
  result (manage_systemd_service action) w = Return tt /\
  store w' = store w /\
  ticks w' = ticks w /\
  exists evs,
    trace w' = trace w ++ evs /\
    (In (Print MsgSystemdMayNotWork) evs <->
     exists argv, In (Run argv) evs /\ systemctl w argv = false) /\
    (In (Run ["systemctl"; "--user"; "disable"; SYSTEMD_SERVICE_NAME]) evs ->
     systemctl w ["systemctl"; "--user"; "stop"; SYSTEMD_SERVICE_NAME] = true).
Proof.
  cbv zeta. unfold result, after, manage_systemd_service.
  destruct (String.eqb action "start").
  - rewrite bind_run. cbn [subprocess_run].
    destruct (systemctl w _) eqn:E1; cbn.
    + repeat (split; [reflexivity|]). eexists. split; [reflexivity|]. split.
      * split.
        -- intros [H | []]. discriminate H.
        -- intros (argv & [[= <-] | []] & Hf). congruence.
      * intros [H | []]. discriminate H.
    + repeat (split; [reflexivity|]). eexists.
      split; [rewrite <- !app_assoc; reflexivity|]. cbn [app]. split.
      * split.
        -- intros _. eexists. split; [left; reflexivity | exact E1].
        -- intros _. right. right. now left.
      * intros [H | [H | [H | []]]]; discriminate H.
  - destruct (String.eqb action "stop").
    + rewrite bind_run. cbn [subprocess_run].
      destruct (systemctl w ["systemctl"; "--user"; "stop"; SYSTEMD_SERVICE_NAME]) eqn:E1.
      * rewrite bind_run. cbn [subprocess_run with_event systemctl].
        destruct (systemctl w ["systemctl"; "--user"; "disable"; SYSTEMD_SERVICE_NAME]) eqn:E2;
          cbn.
        -- repeat (split; [reflexivity|]). eexists.
           split; [rewrite <- !app_assoc; reflexivity|]. cbn [app]. split.
           ++ split.
              ** intros [H | [H | []]]; discriminate H.
              ** intros (argv & [[= <-] | [[= <-] | []]] & Hf); congruence.
           ++ intros _. reflexivity.
        -- repeat (split; [reflexivity|]). eexists.
           split; [rewrite <- !app_assoc; reflexivity|]. cbn [app]. split.
           ++ split.
              ** intros _. eexists. split; [right; left; reflexivity | exact E2].
              ** intros _. do 3 right. now left.
           ++ intros _. reflexivity.
      * cbn. repeat (split; [reflexivity|]). eexists.
        split; [rewrite <- !app_assoc; reflexivity|]. cbn [app]. split.
        -- split.
           ++ intros _. eexists. split; [left; reflexivity | exact E1].
           ++ intros _. right. right. now left.
        -- intros [H | [H | [H | []]]]; discriminate H.
    + cbn. repeat (split; [reflexivity|]). exists []. split; [now rewrite app_nil_r|].
      split; [split; [intros [] | intros (argv & [] & _)] | intros []].
Qed.

(* ------------------------------------------------------------------ *)
(** ** One session at a time *)

Lemma start_work_active_run (w : World) (session : Session) :
  active_session_json (store w) = Holds session ->
  start_work w = (SystemExit 1, moved w 0 [Print MsgAlreadyActive]).
Proof.
  intros H. unfold start_work.
  rewrite bind_run. unfold get_active_session. cbn [get ACTIVE_SESSION_FILE].
  rewrite H. cbv beta iota. rewrite bind_run, print_run. reflexivity.
Qed.

(** X15: at most one session is open.  After a [start] from Idle the
    marker holds the reading [start] took, the work log and the to-do
    list are as before, and a second [start] exits with status 1 and
    leaves that marker in place. *)
Theorem start_twice_keeps_the_first_session (w : World) :
  let first := (ticks w + deadline_readings (store w))%nat in
  let w1 := after start_work w in
  active (store w) = false ->
  valid_date (date_of (next_reading w) + 2) ->
  result start_work w = Return tt /\
  active_session_json (store w1) = Holds {| start_time := clock w first |} /\
  work_log_json (store w1) = work_log_json (store w) /\
  todos_json (store w1) = todos_json (store w) /\
  result start_work w1 = SystemExit 1 /\
  store (after start_work w1) = store w1.
Proof.
  intros first w1 Hidle Hsoon.
  destruct (start_work_idle_run w Hidle Hsoon) as (Hres & Hstore & _).
  fold first w1 in Hstore.
  assert (Hmarker : active_session_json (store w1) = Holds {| start_time := clock w first |})
    by (rewrite Hstore; reflexivity).
  split; [exact Hres|]. split; [exact Hmarker|].
  split; [rewrite Hstore; reflexivity|]. split; [rewrite Hstore; reflexivity|].
  unfold result, after. rewrite (start_work_active_run w1 _ Hmarker). split; reflexivity.
Qed.

Lemma start_twice_keeps_the_first_session_witness :
  let now := at_ymd_hms wednesday_2024_01_10 15 0 0 in
  let w := world_at sample_store now in
  let w1 := after start_work w in
  active_session_json (store w1) = Holds {| start_time := now |} /\
  result start_work w1 = SystemExit 1.
Proof.
  intros now w w1.
  assert (Hidle : active (store w) = false) by reflexivity.
  assert (Hsoon : valid_date (date_of (next_reading w) + 2)).
  { vm_compute. split; discriminate. }
  destruct (start_twice_keeps_the_first_session w Hidle Hsoon)
    as (_ & Hmarker & _ & _ & Hres & _).
  split; [exact Hmarker | exact Hres].
Defined.

(* ------------------------------------------------------------------ *)
(** ** The weeks side by side *)

(** X16: from one reading of the clock the week windows tile the time
    line: the window of offset [k + 1] starts where that of offset [k]
    ends, windows of increasing offset do not overlap, and a time lies in
    the window of at most one offset. *)
Theorem week_windows_tile (now t : datetime) (k k' : Z) (s e s' e' : datetime) :
  week_window now k = Some (s, e) ->
  week_window now k' = Some (s', e') ->
  (k' = k + 1 -> s' = e) /\
  (k < k' -> e <= s') /\
  (s <= t < e -> s' <= t < e' -> k = k').
Proof.
  intros H1 H2.
  apply week_window_some in H1. apply week_window_some in H2.
  destruct H1 as (Hs & He & _). destruct H2 as (Hs' & He' & _).
  change US_PER_DAY with 86400000000 in *.
  repeat split; intros; lia.
Qed.

Lemma week_windows_tile_witness :
  let now := at_ymd_hms wednesday_2024_01_10 15 0 0 in
  let t := at_ymd_hms monday_2024_01_08 9 0 0 in
  week_window now (-1)
    = Some (at_ymd_hms (monday_2024_01_08 - 7) 15 0 0, at_ymd_hms monday_2024_01_08 15 0 0) /\
  at_ymd_hms (monday_2024_01_08 - 7) 15 0 0 <= t < at_ymd_hms monday_2024_01_08 15 0 0 /\
  ~ (at_ymd_hms monday_2024_01_08 15 0 0 <= t < at_ymd_hms (monday_2024_01_08 + 7) 15 0 0).
Proof.
  intros now t.
  assert (H1 : week_window now (-1)
               = Some (at_ymd_hms (monday_2024_01_08 - 7) 15 0 0,
                       at_ymd_hms monday_2024_01_08 15 0 0)) by reflexivity.
  assert (H2 : week_window now 0
               = Some (at_ymd_hms monday_2024_01_08 15 0 0,
                       at_ymd_hms (monday_2024_01_08 + 7) 15 0 0)) by reflexivity.
  assert (Hlast : at_ymd_hms (monday_2024_01_08 - 7) 15 0 0 <= t
                  < at_ymd_hms monday_2024_01_08 15 0 0).
  { vm_compute. split; [discriminate | reflexivity]. }
  split; [exact H1|]. split; [exact Hlast|].
  intros Hcur.
  destruct (week_windows_tile now t (-1) 0 _ _ _ _ H1 H2) as (_ & _ & Huniq).
  specialize (Huniq Hlast Hcur). discriminate Huniq.
Defined.

(* ------------------------------------------------------------------ *)
(** ** What [start] prints *)

(** X17: [start] from Idle first prints exactly what the deadline check
    prints on the same state, then runs [systemctl --user enable --now]
    for the shutdown hook, prints the two lines of the warning exactly
    when that call failed, and ends with the message that the session
    started, stamped with the reading that follows the one stored in the
    marker, and the notice about the automatic logging; nothing else is
    printed or run. *)
Theorem start_prints_the_deadline_notifications (w : World) :
  let first := (ticks w + deadline_readings (store w))%nat in
  let enable := ["systemctl"; "--user"; "enable"; "--now"; SYSTEMD_SERVICE_NAME] in
  active (store w) = false ->
  valid_date (date_of (next_reading w) + 2) ->
  trace (after start_work w)
  = trace (after check_deadlines w)
    ++ Run enable
    :: (if systemctl w enable then []
        else [Print (MsgSystemdWarning SYSTEMD_SERVICE_NAME); Print MsgSystemdMayNotWork])
    ++ [Print (MsgStarted (clock w (S first))); Print MsgAutoLogNotice].
Proof.
  intros first enable Hidle Hsoon. unfold after at 1. unfold start_work.
  rewrite (bind_return _ _ _ _ _ (idle_reads_none w Hidle)).
  pose proof (check_deadlines_run w Hsoon) as Hcheck. unfold runs_to in Hcheck.
  unfold after. rewrite Hcheck. rewrite (bind_return _ _ _ _ _ Hcheck).
  rewrite bind_run. cbn [datetime_now].
  rewrite bind_run. cbn [write_json_file].
  rewrite bind_run. unfold manage_systemd_service. cbn [String.eqb Ascii.eqb Bool.eqb].
  rewrite bind_run. cbn [subprocess_run].
  cbn [systemctl with_store advance moved]. fold enable.
  destruct (systemctl w enable).
  - cbn. rewrite <- !app_assoc. cbn [app]. reflexivity.
  - cbn. rewrite <- !app_assoc. cbn [app]. reflexivity.
Qed.

Lemma start_prints_the_deadline_notifications_witness :
  let now := at_ymd_hms wednesday_2024_01_10 15 0 0 in
  let w := {| store := sample_store; clock := fun _ => now; ticks := 0;
              systemctl := fun _ => false; trace := [] |} in
  trace (after start_work w)
  = trace (after check_deadlines w)
    ++ [ Run ["systemctl"; "--user"; "enable"; "--now"; SYSTEMD_SERVICE_NAME];
         Print (MsgSystemdWarning SYSTEMD_SERVICE_NAME); Print MsgSystemdMayNotWork;
         Print (MsgStarted now); Print MsgAutoLogNotice ].
Proof.
  intros now w.
  assert (Hidle : active (store w) = false) by reflexivity.
  assert (Hsoon : valid_date (date_of (next_reading w) + 2)).
  { vm_compute. split; discriminate. }
  exact (start_prints_the_deadline_notifications w Hidle Hsoon).
Defined.
